(** * MLR_dummy: regression with qualitative regressors

    A shallow embedding of the notebook [MLR-binary-variables/MLR_dummy.ipynb].
    The notebook loads a wage table, builds dummy columns with
    [pd.get_dummies] and column products, and fits six linear models with
    [smf.ols(...).fit()].

    - Part 1 models the data frames: typed columns, [df[name]],
      [df[name] = ...], column products and [pd.get_dummies].
    - Part 2 models the model formulas and the design matrices they denote.
    - Part 3 models the notebook itself as a list of statements run over a
      store of frames, so that aliasing between [data] and [data_in] is
      explicit.
    - Part 4 is the least-squares theory used for the fitted models.

    Numbers: integer columns hold [int]; the float columns hold elements of
    an arbitrary real field [F] (exact arithmetic, no rounding). *)

From HB Require Import structures.
From Stdlib Require Import String Ascii DecimalString Ring.
From mathcomp Require Import ssreflect ssrfun ssrbool eqtype ssrnat seq path.
From mathcomp Require Import choice fintype bigop order ssralg ssrnum ssrint.
From mathcomp Require Import intdiv rat matrix mxalgebra.

Set Implicit Arguments.
Unset Strict Implicit.
Unset Printing Implicit Defensive.

Import Order.TTheory GRing.Theory Num.Theory.
Local Open Scope ring_scope.

HB.instance Definition _ := hasDecEq.Build ascii Ascii.eqb_spec.
HB.instance Definition _ := hasDecEq.Build string String.eqb_spec.

Notation "a +s b" := (String.append a b) (at level 50, left associativity).

(** Python's [str] on an integer. *)
Definition str_nat (n : nat) : string := NilEmpty.string_of_uint (Nat.to_uint n).

Definition str (z : int) : string :=
  match z with
  | Posz n => str_nat n
  | Negz n => String "-"%char (str_nat n.+1)
  end.

(** Option sequencing: a [None] is a Python exception (a [KeyError] for a
    missing column or variable). *)
Notation "'do' x <- e ; k" := (if e is Some x then k else None)
  (at level 200, x name, e at level 100, k at level 200, only parsing).

(* ------------------------------------------------------------------ *)
(** * Part 1: data frames *)
(* ------------------------------------------------------------------ *)

Section Frames.

Variable F : realFieldType.

(** A column carries its dtype.  [read_csv] yields [int64] and [float64]
    columns; [get_dummies] yields [uint8] columns (they print as 0/1 in the
    notebook's output). *)
Inductive column :=
  | I64 of seq int
  | U8 of seq int
  | F64 of seq F.

(** A frame is its ordered list of named columns. *)
Definition frame := seq (string * column).

Definition col_size (c : column) : nat :=
  match c with I64 s | U8 s => size s | F64 s => size s end.

(** [has_rows n df]: every column of [df] has [n] entries, that is,
    [len(df) = n]. *)
Definition has_rows (n : nat) (df : frame) : bool :=
  all (fun c => col_size c.2 == n) df.

(** [df[name]]; [None] is the [KeyError]. *)
Fixpoint getitem (df : frame) (name : string) : option column :=
  if df is (k, c) :: df' then if k == name then Some c else getitem df' name
  else None.

(** [df[name] = c]: overwrite in place, or append a new last column.  The
    column assigned is one computed from columns of [df], hence of the
    length of [df]; the notebook assigns no other, and nothing is said
    here about one of another length (pandas raises or realigns). *)
Fixpoint setitem (df : frame) (name : string) (c : column) : frame :=
  if df is (k, c') :: df' then
    if k == name then (k, c) :: df' else (k, c') :: setitem df' name c
  else [:: (name, c)].

Definition ints_of (c : column) : option (seq int) :=
  match c with I64 s | U8 s => Some s | F64 _ => None end.

(** The values of a column as floats, as the model matrix takes them. *)
Definition floats_of (c : column) : seq F :=
  match c with I64 s | U8 s => [seq x%:~R | x <- s] | F64 s => s end.

(** Machine arithmetic of the integer dtypes. *)
Definition wrap_u8 (z : int) : int := (z %% 256)%Z.
Definition wrap_i64 (z : int) : int := ((z + 2 ^+ 63) %% 2 ^+ 64)%Z - 2 ^+ 63.

Definition zipmul (R : pzSemiRingType) (s t : seq R) : seq R :=
  [seq p.1 * p.2 | p <- zip s t].

(** [a * b] on two columns of one frame (same index, same length), with
    numpy's result dtype.  Columns of different lengths are outside this
    model: pandas would align them on the index. *)
Definition col_mul (a b : column) : column :=
  match a, b with
  | U8 s, U8 t => U8 [seq wrap_u8 z | z <- zipmul s t]
  | F64 s, _ => F64 (zipmul s (floats_of b))
  | _, F64 t => F64 (zipmul (floats_of a) t)
  | I64 s, I64 t | I64 s, U8 t | U8 s, I64 t =>
      I64 [seq wrap_i64 z | z <- zipmul s t]
  end.

(** ** [pd.get_dummies(df, columns=cols)] *)

(** The categories of a key column: its distinct values, ascending. *)
Definition levels (s : seq int) : seq int := sort <=%R (undup s).

Definition indicator (v : int) (s : seq int) : seq int :=
  [seq (x == v)%:Z | x <- s].

(** One [uint8] indicator column per category, named [name_value]. *)
Definition dummy_columns (name : string) (s : seq int) : frame :=
  [seq (name +s "_" +s str v, U8 (indicator v s)) | v <- levels s].

(** The indicator blocks of the encoded columns, in the order of [cols].
    Only integer key columns are modelled (the notebook encodes no other). *)
Fixpoint encode (df : frame) (cols : seq string) : option frame :=
  if cols is c :: cs then
    do col <- getitem df c;
    do s <- ints_of col;
    do rest <- encode df cs;
    Some (dummy_columns c s ++ rest)
  else Some [::].

(** The encoded columns are dropped and the indicator blocks are appended;
    the result is a new frame. *)
Definition get_dummies (df : frame) (cols : seq string) : option frame :=
  do blocks <- encode df cols;
  Some ([seq c <- df | c.1 \notin cols] ++ blocks).

(** [df[new] = df[a] * df[b]] *)
Definition assign_product (df : frame) (new a b : string) : option frame :=
  do ca <- getitem df a;
  do cb <- getitem df b;
  Some (setitem df new (col_mul ca cb)).

(** ** The dummy construction of the notebook *)

(** [data_in = pd.get_dummies(data, columns=['female','married'])] *)
Definition make_data_in (data : frame) : option frame :=
  get_dummies data [:: "female"%string; "married"%string].

(** [data_in["marrfem"] = data_in["female_1"]*data_in["married_1"]]
    [data_in["marrmale"] = data_in["female_0"]*data_in["married_1"]]
    [data_in["singfem"] = data_in["female_1"]*data_in["married_0"]] *)
Definition add_groups (data_in : frame) : option frame :=
  do d1 <- assign_product data_in "marrfem" "female_1" "married_1";
  do d2 <- assign_product d1 "marrmale" "female_0" "married_1";
  assign_product d2 "singfem" "female_1" "married_0".

(** [data_in["singmale"] = data_in["female_0"]*data_in["married_0"]] *)
Definition add_singmale (data_in : frame) : option frame :=
  assign_product data_in "singmale" "female_0" "married_0".

(** The frame [data_in] as it stands once all four group columns exist. *)
Definition grouped (data : frame) : option frame :=
  do d0 <- make_data_in data;
  do d1 <- add_groups d0;
  add_singmale d1.

(** The integer at row [i] of column [name]; [None] when the column is
    missing, holds floats, or has no row [i]. *)
Definition at_row (df : frame) (name : string) (i : nat) : option int :=
  do c <- getitem df name;
  do s <- ints_of c;
  if (i < size s)%N then Some (nth 0 s i) else None.

(** Sum of two cells, either of which may be missing. *)
Definition oadd (a b : option int) : option int :=
  do x <- a; do y <- b; Some (x + y).

(** ** The loaded table

    The notebook's data description lists the 24 columns of [WAGE.csv]:
    [wage] and [lwage] are floats, the others are integers, and [female]
    and [married] are 0/1 flags ("=1 if female", "=1 if married"). *)

Definition wage_columns : seq string :=
  [:: "wage"; "educ"; "exper"; "tenure"; "nonwhite"; "female"; "married";
      "numdep"; "smsa"; "northcen"; "south"; "west"; "construc"; "ndurman";
      "trcommpu"; "trade"; "services"; "profserv"; "profocc"; "clerocc";
      "servocc"; "lwage"; "expersq"; "tenursq"]%string.

Definition keys (df : frame) : seq string := [seq c.1 | c <- df].

Definition is_float (c : column) : bool := if c is F64 _ then true else false.

Definition dtype_ok (c : string * column) : bool :=
  is_float c.2 == (c.1 \in [:: "wage"; "lwage"]%string).

(** [flag df name]: the column is an [int64] column whose categories are
    exactly 0 and 1. *)
Definition flag (df : frame) (name : string) : bool :=
  if getitem df name is Some (I64 s) then levels s == [:: 0; 1] else false.

(** [wage_table n df]: [df] is a table with the header and dtypes of
    [WAGE.csv], [n] rows, and both flags taking both of their values. *)
Definition wage_table (n : nat) (df : frame) : bool :=
  [&& keys df == wage_columns, all dtype_ok df, has_rows n df,
      flag df "female" & flag df "married"].

(** The rows of a group, as a 0/1 column: [f] is [a] and [m] is [b]. *)
Definition group_indicator (a b : int) (f m : seq int) : seq int :=
  [seq ((p.1 == a) && (p.2 == b))%:Z | p <- zip f m].

End Frames.

(* ------------------------------------------------------------------ *)
(** * Part 2: model formulas and design matrices *)
(* ------------------------------------------------------------------ *)

(** The formulas of the notebook use this fragment of the formula
    language: [lhs ~ t + ... + t] where a term is [1], a column name,
    [C(name)], or a product [a*b] of two of the latter. *)
Inductive factor := Num of string | Cat of string.
Inductive term := One | Main of factor | Star of factor & factor.
Record formula := Formula { response : string; terms : seq term }.

Fixpoint unspace (s : string) : string :=
  if s is String c s' then
    if c == " "%char then unspace s' else String c (unspace s')
  else EmptyString.

(** Python's [s.split(sep)]. *)
Fixpoint split_on (sep : ascii) (s : string) : seq string :=
  if s is String c s' then
    if c == sep then EmptyString :: split_on sep s'
    else if split_on sep s' is w :: ws then String c w :: ws
    else [:: String c EmptyString]
  else [:: EmptyString].

(** [chop "name)"] is ["name"]. *)
Fixpoint chop (s : string) : option string :=
  if s is String c s' then
    if s' is EmptyString then
      if c == ")"%char then Some EmptyString else None
    else do r <- chop s'; Some (String c r)
  else None.

Definition parse_factor (s : string) : option factor :=
  match s with
  | EmptyString => None
  | String "C" (String "(" s') => do x <- chop s'; Some (Cat x)
  | _ => Some (Num s)
  end.

Definition parse_term (s : string) : option term :=
  if s == "1"%string then Some One else
  match split_on "*" s with
  | [:: a] => do fa <- parse_factor a; Some (Main fa)
  | [:: a; b] =>
      do fa <- parse_factor a; do fb <- parse_factor b; Some (Star fa fb)
  | _ => None
  end.

Fixpoint parse_terms (ts : seq string) : option (seq term) :=
  if ts is t :: ts' then
    do x <- parse_term t; do xs <- parse_terms ts'; Some (x :: xs)
  else Some [::].

Definition parse_formula (s : string) : option formula :=
  match split_on "~" (unspace s) with
  | [:: lhs; rhs] =>
      do ts <- parse_terms (split_on "+" rhs); Some (Formula lhs ts)
  | _ => None
  end.

Section Designs.

Variable F : realFieldType.

(** A regressor: its name in the summary table and its values. *)
Definition regressor := (string * seq F)%type.

(** The model data of a regression: response and regressors. *)
Record design := Design { endog : seq F; exog : seq regressor }.

Definition nobs (d : design) : nat := size (endog d).

(** Treatment coding of a categorical column: one 0/1 column per category
    except the first, which is the base. *)
Definition treatment (c : string) (s : seq int) : seq regressor :=
  [seq ("C(" +s c +s ")[T." +s str v +s "]", [seq (x == v)%:R | x <- s])
     | v <- behead (levels s)].

(** A numeric column enters as it is; [C(name)] is treatment coded. *)
Definition factor_columns (df : frame F) (f : factor) : option (seq regressor) :=
  match f with
  | Num c => do col <- getitem df c; Some [:: (c, floats_of col)]
  | Cat c => do col <- getitem df c; do s <- ints_of col; Some (treatment c s)
  end.

(** [a*b] stands for [a + b + a:b]. *)
Definition term_columns (n : nat) (df : frame F) (t : term) :
    option (seq regressor) :=
  match t with
  | One => Some [:: ("Intercept"%string, nseq n 1)]
  | Main f => factor_columns df f
  | Star a b =>
      do ca <- factor_columns df a;
      do cb <- factor_columns df b;
      Some (ca ++ cb ++
            [seq (x.1 +s ":" +s y.1, zipmul x.2 y.2) | x <- ca, y <- cb])
  end.

Fixpoint terms_columns (n : nat) (df : frame F) (ts : seq term) :
    option (seq regressor) :=
  if ts is t :: ts' then
    do c <- term_columns n df t;
    do cs <- terms_columns n df ts';
    Some (c ++ cs)
  else Some [::].

(** [smf.ols(formula = s, data = df)] *)
Definition build_design (df : frame F) (s : string) : option design :=
  do fm <- parse_formula s;
  do ycol <- getitem df (response fm);
  let y := floats_of ycol in
  do X <- terms_columns (size y) df (terms fm);
  Some (Design y X).

(** The design as matrices: one column per regressor. *)
Definition col_vec (n : nat) (s : seq F) : 'cV[F]_n := \col_(i < n) nth 0 s i.

Fixpoint design_mx (n : nat) (cols : seq regressor) : 'M[F]_(n, size cols) :=
  match cols return 'M[F]_(n, size cols) with
  | [::] => 0
  | c :: cs => row_mx (col_vec n c.2) (design_mx n cs)
  end.

(** The columns a design reads from the loaded table. *)
Definition floats_at (df : frame F) (name : string) : seq F :=
  if getitem df name is Some c then floats_of c else [::].

Definition ints_at (df : frame F) (name : string) : seq int :=
  if getitem df name is Some c then
    if ints_of c is Some s then s else [::]
  else [::].

Definition wage_controls (df : frame F) : seq regressor :=
  [seq (k, floats_at df k)
     | k <- [:: "educ"; "exper"; "expersq"; "tenure"; "tenursq"]%string].

Definition model_matrix (d : design) : 'M[F]_(nobs d, size (exog d)) :=
  design_mx (nobs d) (exog d).

(** The entries of a column vector, top to bottom, and back. *)
Fixpoint coefs (k : nat) : 'cV[F]_k -> seq F :=
  match k with
  | 0 => fun=> [::]
  | k'.+1 => fun b : 'cV[F]_(1 + k') => usubmx b 0 0 :: coefs (dsubmx b)
  end.

Fixpoint vec_of (s : seq F) : 'cV[F]_(size s) :=
  match s return 'cV[F]_(size s) with
  | [::] => 0
  | x :: s' => col_mx x%:M (vec_of s')
  end.

End Designs.

(* ------------------------------------------------------------------ *)
(** * Part 3: the notebook *)
(* ------------------------------------------------------------------ *)

(** Expressions over [model_est.params] that the notebook displays. *)
Inductive expr := Param of string | Add of expr & expr | Sub of expr & expr.

(** The statement forms of the notebook. *)
Inductive stmt :=
  | ReadCsv of string & string
      (** [x = pd.read_csv(path)] *)
  | Head of string
      (** [x.head()], [print(x.head())] *)
  | Describe of string & string & int & seq string
      (** [print(x.query("c == v")[cols].describe())] *)
  | Ols of string & string
      (** [model_eq = smf.ols(formula = s, data = x)]
          [model_est = model_eq.fit()]
          [print(model_est.summary())] *)
  | Display of expr
      (** a cell ending in an expression over [model_est.params] *)
  | GetDummies of string & string & seq string
      (** [x = pd.get_dummies(y, columns=cols)] *)
  | SetProduct of string & string & string & string.
      (** [x[c] = x[a]*x[b]] *)

Section Notebook.

Variable F : realFieldType.

(** The least-squares routine of the statistics library, from the model
    matrix and the response to the coefficient vector. *)
Variable fit : forall n k : nat, 'M[F]_(n, k) -> 'cV[F]_n -> 'cV[F]_k.

(** The file system: the table held by a csv file, if the file exists. *)
Variable disk : string -> option (frame F).

(** [model_est]: the fitted model remembers its formula, the frame object
    it was given, its own copy of the model data, and the estimates. *)
Record results := Results {
  formula_of : string;
  frame_of : nat;
  design_of : design F;
  params : seq (string * F);
  fittedvalues : seq F
}.

(** [model_eq.fit()]: the estimate, as the vector and as the named series
    [params], and the fitted values [X b]. *)
Definition estimate (d : design F) : 'cV[F]_(size (exog d)) :=
  fit (model_matrix d) (col_vec (nobs d) (endog d)).

Definition ols_fit (d : design F) : seq (string * F) :=
  zip [seq c.1 | c <- exog d] (coefs (estimate d)).

Definition ols_predict (d : design F) : seq F :=
  coefs (model_matrix d *m estimate d).

(** [params[name]] of a fitted design, 0 for a name that is not a regressor. *)
Definition param (d : design F) (name : string) : F :=
  nth 0 (coefs (estimate d)) (index name [seq c.1 | c <- exog d]).

(** [params[name]] *)
Fixpoint series_get (ps : seq (string * F)) (name : string) : option F :=
  if ps is (k, v) :: ps' then if k == name then Some v else series_get ps' name
  else None.

Fixpoint eval (ps : seq (string * F)) (e : expr) : option F :=
  match e with
  | Param name => series_get ps name
  | Add a b => do x <- eval ps a; do y <- eval ps b; Some (x + y)
  | Sub a b => do x <- eval ps a; do y <- eval ps b; Some (x - y)
  end.

(** Row selection and the part of [describe()] the notebook's text uses:
    the count and the mean of each column. *)
Definition col_mask (b : bitseq) (c : column F) : column F :=
  match c with
  | I64 s => I64 F (mask b s)
  | U8 s => U8 F (mask b s)
  | F64 s => F64 (mask b s)
  end.

Definition query_eq (df : frame F) (c : string) (v : int) : option (frame F) :=
  do col <- getitem df c;
  do s <- ints_of col;
  Some [seq (k.1, col_mask [seq x == v | x <- s] k.2) | k <- df].

Fixpoint select (df : frame F) (cols : seq string) : option (frame F) :=
  if cols is c :: cs then
    do col <- getitem df c; do rest <- select df cs; Some ((c, col) :: rest)
  else Some [::].

Definition mean (s : seq F) : F := (\sum_(x <- s) x) / (size s)%:R.

Definition describe (df : frame F) : seq (string * (nat * F)) :=
  [seq (c.1, (col_size c.2, mean (floats_of c.2))) | c <- df].

Definition col_take (n : nat) (c : column F) : column F :=
  match c with
  | I64 s => I64 F (take n s)
  | U8 s => U8 F (take n s)
  | F64 s => F64 (take n s)
  end.

Definition head (df : frame F) : frame F := [seq (c.1, col_take 5 c.2) | c <- df].

(** What a cell shows, and the events of a run. *)
Inductive output :=
  | OutFrame of frame F
  | OutStats of seq (string * (nat * F))
  | OutSummary of results
  | OutValue of F.

Inductive event :=
  | FileRead of string
  | FileWrite of string
  | Stdout of output.

Definition is_file_event (e : event) : bool :=
  if e is Stdout _ then false else true.

(** The state of the kernel: frame objects live in a store and variables
    hold references to them, so two names may share one object. *)
Record state := State {
  store : seq (frame F);
  env : seq (string * nat);
  model_est : option results;
  fitted : seq results;
  trace : seq event
}.

Definition init : state := State [::] [::] None [::] [::].

Fixpoint lookup (e : seq (string * nat)) (x : string) : option nat :=
  if e is (k, r) :: e' then if k == x then Some r else lookup e' x else None.

Definition fetch (h : seq (frame F)) (r : nat) : option (frame F) :=
  if (r < size h)%N then Some (nth [::] h r) else None.

(** The frame a variable denotes. *)
Definition deref (st : state) (x : string) : option (frame F) :=
  do r <- lookup (env st) x; fetch (store st) r.

(** Bind [x] to a new object holding [df]. *)
Definition bind_new (st : state) (x : string) (df : frame F) : state :=
  State (rcons (store st) df) ((x, size (store st)) :: env st)
        (model_est st) (fitted st) (trace st).

Definition emit (st : state) (e : event) : state :=
  State (store st) (env st) (model_est st) (fitted st) (rcons (trace st) e).

Definition exec (s : stmt) (st : state) : option state :=
  match s with
  | ReadCsv x path =>
      do df <- disk path;
      Some (emit (bind_new st x df) (FileRead path))
  | Head x =>
      do df <- deref st x;
      Some (emit st (Stdout (OutFrame (head df))))
  | Describe x c v cols =>
      do df <- deref st x;
      do q <- query_eq df c v;
      do sub <- select q cols;
      Some (emit st (Stdout (OutStats (describe sub))))
  | Ols fm x =>
      do r <- lookup (env st) x;
      do df <- fetch (store st) r;
      do d <- build_design df fm;
      let res := Results fm r d (ols_fit d) (ols_predict d) in
      Some (emit (State (store st) (env st) (Some res)
                        (rcons (fitted st) res) (trace st))
                 (Stdout (OutSummary res)))
  | Display e =>
      do res <- model_est st;
      do v <- eval (params res) e;
      Some (emit st (Stdout (OutValue v)))
  | GetDummies x y cols =>
      do df <- deref st y;
      do d <- get_dummies df cols;
      Some (bind_new st x d)
  | SetProduct x c a b =>
      do r <- lookup (env st) x;
      do df <- fetch (store st) r;
      do d <- assign_product df c a b;
      Some (State (set_nth [::] (store st) r d) (env st)
                  (model_est st) (fitted st) (trace st))
  end.

Fixpoint run (p : seq stmt) (st : state) : option state :=
  if p is s :: p' then do st' <- exec s st; run p' st' else Some st.

(** Observations of a run from the initial state. *)
Definition frame_after (p : seq stmt) (x : string) : option (frame F) :=
  do st <- run p init; deref st x.

Definition objects_after (p : seq stmt) (xs : seq string) :
    option (seq (option nat)) :=
  do st <- run p init; Some [seq lookup (env st) x | x <- xs].

Definition shown_after (p : seq stmt) : option (seq output) :=
  do st <- run p init;
  Some (pmap (fun e => if e is Stdout o then Some o else None) (trace st)).

(** The mean of a column in a [describe()] table. *)
Fixpoint stat_mean (t : seq (string * (nat * F))) (name : string) : option F :=
  if t is (k, v) :: t' then if k == name then Some v.2 else stat_mean t' name
  else None.

(** The sample mean of column [col] over the rows where [c == v]. *)
Definition subsample_mean (df : frame F) (c : string) (v : int)
    (col : string) : option F :=
  do q <- query_eq df c v;
  do x <- getitem q col;
  Some (mean (floats_of x)).

(** The [k]-th regression of a run, counting from 0. *)
Definition fit_after (p : seq stmt) (k : nat) : option results :=
  do st <- run p init; ohead (drop k (fitted st)).

Definition file_events (p : seq stmt) : option (seq event) :=
  do st <- run p init; Some [seq e <- trace st | is_file_event e].

End Notebook.

Arguments dummy_columns : simpl never.
Arguments treatment : simpl never.
Arguments ols_fit : simpl never.
Arguments ols_predict : simpl never.
Arguments param : simpl never.

(** ** What the summary reports about the fit as a whole *)

Section Summary.

Variable F : realFieldType.
Implicit Types r : results F.

Definition ssr_of r : F :=
  \sum_(p <- zip (endog (design_of r)) (fittedvalues r)) (p.1 - p.2) ^+ 2.

Definition centered_tss r : F :=
  let y := endog (design_of r) in \sum_(x <- y) (x - mean y) ^+ 2.

(** The library counts degrees of freedom by the rank of the model
    matrix: [Df Model] is the rank less one for the constant, and
    [Df Residuals] is the number of observations less the rank. *)
Definition df_model r : nat := (\rank (model_matrix (design_of r))).-1.

Definition df_resid r : nat :=
  (nobs (design_of r) - \rank (model_matrix (design_of r)))%N.

(** A quotient of floats; [None] when the divisor is zero, where the
    program gets [nan] or an infinity instead of a number. *)
Definition quot (a b : F) : option F := if b == 0 then None else Some (a / b).

(** [1 - SSR/SST]; not a number for a constant response. *)
Definition rsquared r : option F :=
  do q <- quot (ssr_of r) (centered_tss r); Some (1 - q).

(** The ratio of the mean squares of the model and of the residuals; not a
    number when either has no degrees of freedom or the fit is perfect. *)
Definition fvalue r : option F :=
  do mse_model <- quot (centered_tss r - ssr_of r) (df_model r)%:R;
  do mse_resid <- quot (ssr_of r) (df_resid r)%:R;
  quot mse_model mse_resid.

End Summary.

(** ** Least squares *)

Section LeastSquaresDefs.

Variable F : realFieldType.

Definition sumsq (n : nat) (v : 'cV[F]_n) : F := \sum_i v i 0 ^+ 2.

Definition dot (n : nat) (u v : 'cV[F]_n) : F := \sum_i u i 0 * v i 0.

(** The sum of squared residuals of the coefficient vector [b]. *)
Definition ssr (n k : nat) (X : 'M[F]_(n, k)) (y : 'cV[F]_n) (b : 'cV[F]_k) : F :=
  sumsq (y - X *m b).

Definition least_squares (n k : nat) (X : 'M[F]_(n, k)) (y : 'cV[F]_n)
    (b : 'cV[F]_k) : Prop :=
  forall c, ssr X y b <= ssr X y c.

Definition normal_equations (n k : nat) (X : 'M[F]_(n, k)) (y : 'cV[F]_n)
    (b : 'cV[F]_k) : Prop :=
  X^T *m (y - X *m b) = 0.

Definition full_col_rank (n k : nat) (X : 'M[F]_(n, k)) : bool := \rank X == k.

Definition closed_form (n k : nat) (X : 'M[F]_(n, k)) (y : 'cV[F]_n) : 'cV[F]_k :=
  invmx (X^T *m X) *m (X^T *m y).

(** What the notebook relies on when it calls the library ("Method: Least
    Squares" in every summary): on a design of full column rank the routine
    returns a minimiser of the sum of squared residuals. *)
Definition is_ols (fit : forall n k, 'M[F]_(n, k) -> 'cV[F]_n -> 'cV[F]_k) : Prop :=
  forall n k (X : 'M[F]_(n, k)) (y : 'cV[F]_n),
    full_col_rank X -> least_squares X y (fit n k X y).

End LeastSquaresDefs.

(** The model matrix of a regression of the run has full column rank. *)
Definition regular (F : realFieldType) (o : option (results F)) : bool :=
  if o is Some r then full_col_rank (model_matrix (design_of r)) else false.

(** [r] is a least-squares fit of its own model data: [params] and
    [fittedvalues] are the entries of a coefficient vector [b] and of
    [X b], and [b] minimises the sum of squared residuals when the model
    matrix has full column rank. *)
Definition least_squares_fit (F : realFieldType) (r : results F) : Prop :=
  let d := design_of r in
  exists b : 'cV[F]_(size (exog d)),
    [/\ params r = zip [seq c.1 | c <- exog d] (coefs b),
        fittedvalues r = coefs (model_matrix d *m b) &
        full_col_rank (model_matrix d) ->
        least_squares (model_matrix d) (col_vec (nobs d) (endog d)) b].

Fixpoint every (T : Type) (P : T -> Prop) (s : seq T) : Prop :=
  if s is x :: s' then P x /\ every P s' else True.

(** ** The cells, section by section *)

(** "Load the data set" and the data checks. *)
Definition load_section : seq stmt :=
  [:: ReadCsv "data" "WAGE.csv";
      Head "data";
      Describe "data" "female" 1 [:: "wage"; "educ"; "exper"; "tenure"]%string;
      Describe "data" "female" 0 [:: "wage"; "educ"; "exper"; "tenure"]%string].

(** "Single dummy independent variable" *)
Definition single_dummy_section : seq stmt :=
  [:: Ols "wage ~ 1 + female + educ + exper + tenure" "data";
      Display (Param "female");
      Ols "wage ~ 1 + female" "data";
      Display (Add (Param "Intercept") (Param "female"))].

(** "Using Dummy Variables for Multiple Categories" *)
Definition categories_section : seq stmt :=
  [:: GetDummies "data_in" "data" [:: "female"; "married"]%string;
      Head "data_in";
      SetProduct "data_in" "marrfem" "female_1" "married_1";
      SetProduct "data_in" "marrmale" "female_0" "married_1";
      SetProduct "data_in" "singfem" "female_1" "married_0";
      Head "data_in";
      Ols "lwage ~ 1 + marrmale + marrfem + singfem + educ + exper + expersq + tenure + tenursq"
          "data_in";
      Display (Sub (Param "singfem") (Param "marrfem"));
      SetProduct "data_in" "singmale" "female_0" "married_0";
      Ols "lwage ~ 1 + marrmale + singfem + singmale + educ + exper + expersq + tenure + tenursq"
          "data_in"].

(** "Interactions Involving Dummy Variables" *)
Definition interactions_section : seq stmt :=
  [:: Ols "lwage ~ 1 + C(female)*C(married) + educ + exper + expersq + tenure + tenursq"
          "data";
      Ols "lwage ~ 1 + C(female)*educ + exper + expersq + tenure + tenursq"
          "data"].

Definition notebook : seq stmt :=
  load_section ++ single_dummy_section ++ categories_section ++
  interactions_section.

(** ** A small table with the header of [WAGE.csv]

    Nine rows over the rationals: one row per group with all controls at
    0, and five more single men, each with one control at 1. *)

Definition toy_f : seq int := [:: 0; 0; 1; 1; 0; 0; 0; 0; 0].
Definition toy_m : seq int := [:: 0; 1; 1; 0; 0; 0; 0; 0; 0].
Definition toy_wage : seq rat := [:: 3%:Q; 6%:Q; 4%:Q; 3%:Q; 5%:Q; 4%:Q; 4%:Q; 7%:Q; 6%:Q].
Definition toy_lwage : seq rat := [:: 1%:Q; 2%:Q; 1%:Q; 1%:Q; 2%:Q; 1%:Q; 1%:Q; 2%:Q; 2%:Q].

Definition unit_col (k : nat) : column rat :=
  I64 rat [seq (i == k)%:Z | i <- iota 0 9].

Definition toy : frame rat :=
  [:: ("wage"%string, F64 toy_wage); ("educ"%string, unit_col 4);
      ("exper"%string, unit_col 5); ("tenure"%string, unit_col 7);
      ("nonwhite"%string, unit_col 9); ("female"%string, I64 rat toy_f);
      ("married"%string, I64 rat toy_m); ("numdep"%string, unit_col 9);
      ("smsa"%string, unit_col 9); ("northcen"%string, unit_col 9);
      ("south"%string, unit_col 9); ("west"%string, unit_col 9);
      ("construc"%string, unit_col 9); ("ndurman"%string, unit_col 9);
      ("trcommpu"%string, unit_col 9); ("trade"%string, unit_col 9);
      ("services"%string, unit_col 9); ("profserv"%string, unit_col 9);
      ("profocc"%string, unit_col 9); ("clerocc"%string, unit_col 9);
      ("servocc"%string, unit_col 9); ("lwage"%string, F64 toy_lwage);
      ("expersq"%string, unit_col 6); ("tenursq"%string, unit_col 8)].

Definition toy_disk (path : string) : option (frame rat) :=
  if path == "WAGE.csv"%string then Some toy else None.

(** ** A second table, with more rows than regressors

    Thirteen rows over the rationals.  Rows 0 to 7 have all controls at 0
    and come in pairs: two single men, two married men, two married women,
    two single women, the two of a pair with different wages.  Rows 8 to
    12 are single men, each with one control at 1.  The regressions on the
    four groups and the five controls have 13 observations and 9
    regressors, and do not fit the table exactly. *)

Definition panel_f : seq int := [:: 0; 0; 0; 0; 1; 1; 1; 1; 0; 0; 0; 0; 0].
Definition panel_m : seq int := [:: 0; 0; 1; 1; 1; 1; 0; 0; 0; 0; 0; 0; 0].
Definition panel_wage : seq rat :=
  [:: 3%:Q; 5%:Q; 6%:Q; 8%:Q; 4%:Q; 6%:Q; 3%:Q; 4%:Q; 5%:Q; 4%:Q; 6%:Q; 3%:Q;
      7%:Q].
Definition panel_lwage : seq rat :=
  [:: 1%:Q; 3%:Q; 4%:Q; 6%:Q; 2%:Q; 4%:Q; 1%:Q; 2%:Q; 3%:Q; 2%:Q; 4%:Q; 1%:Q;
      6%:Q].

Definition panel_col (k : nat) : column rat :=
  I64 rat [seq (i == k)%:Z | i <- iota 0 13].

Definition panel : frame rat :=
  [:: ("wage"%string, F64 panel_wage); ("educ"%string, panel_col 8);
      ("exper"%string, panel_col 9); ("tenure"%string, panel_col 11);
      ("nonwhite"%string, panel_col 13); ("female"%string, I64 rat panel_f);
      ("married"%string, I64 rat panel_m); ("numdep"%string, panel_col 13);
      ("smsa"%string, panel_col 13); ("northcen"%string, panel_col 13);
      ("south"%string, panel_col 13); ("west"%string, panel_col 13);
      ("construc"%string, panel_col 13); ("ndurman"%string, panel_col 13);
      ("trcommpu"%string, panel_col 13); ("trade"%string, panel_col 13);
      ("services"%string, panel_col 13); ("profserv"%string, panel_col 13);
      ("profocc"%string, panel_col 13); ("clerocc"%string, panel_col 13);
      ("servocc"%string, panel_col 13); ("lwage"%string, F64 panel_lwage);
      ("expersq"%string, panel_col 10); ("tenursq"%string, panel_col 12)].

Definition panel_disk (path : string) : option (frame rat) :=
  if path == "WAGE.csv"%string then Some panel else None.

(* ------------------------------------------------------------------ *)
(** * Theorems *)
(* ------------------------------------------------------------------ *)


(** The first five rows printed by [data.head()], restricted to the columns
    the dummy construction reads, and what [data_in.head()] prints for them. *)
Section HeadRows.

Variable F : realFieldType.

Definition head_rows : frame F :=
  [:: ("educ"%string, I64 F [:: 11; 12; 11; 8; 12]);
      ("female"%string, I64 F [:: 1; 1; 0; 0; 0]);
      ("married"%string, I64 F [:: 0; 1; 0; 1; 1])].

Example head_get_dummies :
  make_data_in head_rows =
  Some [:: ("educ"%string, I64 F [:: 11; 12; 11; 8; 12]);
           ("female_0"%string, U8 F [:: 0; 0; 1; 1; 1]);
           ("female_1"%string, U8 F [:: 1; 1; 0; 0; 0]);
           ("married_0"%string, U8 F [:: 1; 0; 1; 0; 0]);
           ("married_1"%string, U8 F [:: 0; 1; 0; 1; 1])].
Proof. by vm_compute. Qed.

Example head_groups :
  (do d <- grouped head_rows;
   Some [seq getitem d c | c <- [:: "marrfem"; "marrmale"; "singfem"; "singmale"]%string]) =
  Some [:: Some (U8 F [:: 0; 1; 0; 0; 0]); Some (U8 F [:: 0; 0; 0; 1; 1]);
           Some (U8 F [:: 1; 0; 0; 0; 0]); Some (U8 F [:: 0; 0; 1; 0; 0])].
Proof. by vm_compute. Qed.

End HeadRows.

Section FrameTheory.

Variable F : realFieldType.
Implicit Types (df : frame F) (c : column F) (k : string).

Lemma getitem_cat df1 df2 k :
  getitem (df1 ++ df2) k =
  if getitem df1 k is Some c then Some c else getitem df2 k.
Proof. by elim: df1 => [|[k' c] df1 IH] //=; case: eqP. Qed.

Lemma getitem_notin df k : k \notin keys df -> getitem df k = None.
Proof.
elim: df => [|[k' c] df IH] //=; rewrite inE negb_or eq_sym.
by case/andP=> /negPf-> /IH.
Qed.

Lemma getitem_filter df (p : pred string) k :
  p k -> getitem [seq x <- df | p x.1] k = getitem df k.
Proof.
move=> pk; elim: df => [|[k' c] df IH] //=.
case: ifP => /= [_|pk']; first by rewrite IH.
by case: eqP pk' => [->|//]; rewrite pk.
Qed.

Lemma keys_filter df (p : pred string) :
  keys [seq x <- df | p x.1] = [seq x <- keys df | p x].
Proof. by rewrite /keys filter_map. Qed.

Lemma setitem_new df k c : k \notin keys df -> setitem df k c = rcons df (k, c).
Proof.
elim: df => [|[k' c'] df IH] //=; rewrite inE negb_or.
by case/andP=> /negPf kk' /IH->; rewrite eq_sym kk'.
Qed.

Lemma getitem_setitem df k c k' :
  getitem (setitem df k c) k' = if k' == k then Some c else getitem df k'.
Proof.
elim: df => [|[k0 c0] df IH] /=; first by rewrite eq_sym.
case: (k0 =P k) => [->|/eqP k0k] /=.
  by rewrite [k' == k]eq_sym; case: ifP.
by rewrite IH; case: (k0 =P k') => [<-|//]; rewrite (negPf k0k).
Qed.

Lemma has_rows_setitem n df k c :
  has_rows n df -> col_size c = n -> has_rows n (setitem df k c).
Proof.
move=> + cn; elim: df => [|[k' c'] df IH] /=; first by rewrite cn eqxx.
by case/andP=> c'n dfn; case: ifP => _ /=; rewrite ?cn ?eqxx ?c'n ?IH.
Qed.

Lemma has_rows_getitem n df k c :
  has_rows n df -> getitem df k = Some c -> col_size c = n.
Proof.
elim: df => [|[k' c'] df IH] //= /andP[c'n /IH dfn].
by case: ifP => // _ [<-]; apply/eqP.
Qed.

End FrameTheory.

Section DummyConstruction.

Variable F : realFieldType.
Implicit Types (df data : frame F) (f m : seq int).

(** The columns of [data] that [get_dummies] leaves in place. *)
Definition kept data : frame F :=
  [seq c <- data | c.1 \notin [:: "female"; "married"]%string].

Lemma mul_indicator a b f m :
  [seq wrap_u8 z | z <- zipmul (indicator a f) (indicator b m)] =
  group_indicator a b f m.
Proof.
rewrite /zipmul /indicator /group_indicator.
elim: f m => [|x f IH] [|y m] //=; rewrite IH; congr (_ :: _).
by case: (x == a); case: (y == b).
Qed.

Lemma flagP df name :
  flag df name ->
  exists2 s, getitem df name = Some (I64 F s) & levels s = [:: 0; 1].
Proof.
by rewrite /flag; case: getitem => [[s| |]|] // /eqP ls; exists s.
Qed.

Lemma keys_kept data :
  keys data = wage_columns ->
  keys (kept data) = [seq x <- wage_columns | x \notin [:: "female"; "married"]%string].
Proof. by move<-; rewrite /kept /keys filter_map. Qed.

(** The four indicator columns appended by [get_dummies]. *)
Definition flag_dummies f m : frame F :=
  [:: ("female_0"%string, U8 F (indicator 0 f));
      ("female_1"%string, U8 F (indicator 1 f));
      ("married_0"%string, U8 F (indicator 0 m));
      ("married_1"%string, U8 F (indicator 1 m))].

(** The four group columns defined by the notebook, in the order in which
    it defines them. *)
Definition group_dummies f m : frame F :=
  [:: ("marrfem"%string, U8 F (group_indicator 1 1 f m));
      ("marrmale"%string, U8 F (group_indicator 0 1 f m));
      ("singfem"%string, U8 F (group_indicator 1 0 f m));
      ("singmale"%string, U8 F (group_indicator 0 0 f m))].

(** What [wage_table] says about the two flag columns [f] and [m]. *)
Definition flag_columns n data f m : Prop :=
  [/\ getitem data "female" = Some (I64 F f),
      getitem data "married" = Some (I64 F m),
      levels f = [:: 0; 1], levels m = [:: 0; 1] & size f = n /\ size m = n].

Lemma wage_flags n data :
  wage_table n data -> exists f m, flag_columns n data f m.
Proof.
case/and5P=> _ _ rows /flagP[f ff lf] /flagP[m mm lm].
exists f, m; split=> //; split.
  exact: (has_rows_getitem rows ff).
exact: (has_rows_getitem rows mm).
Qed.

Lemma dummy_flags f m :
  levels f = [:: 0; 1] -> levels m = [:: 0; 1] ->
  dummy_columns F "female" f ++ dummy_columns F "married" m ++ [::] =
  flag_dummies f m.
Proof. by rewrite /dummy_columns => -> ->. Qed.

Lemma treatment_female f :
  levels f = [:: 0; 1] ->
  treatment F "female" f =
  [:: ("C(female)[T.1]"%string, [seq (x == 1)%:R | x <- f])].
Proof. by rewrite /treatment => ->. Qed.

Lemma treatment_married m :
  levels m = [:: 0; 1] ->
  treatment F "married" m =
  [:: ("C(married)[T.1]"%string, [seq (x == 1)%:R | x <- m])].
Proof. by rewrite /treatment => ->. Qed.

Lemma make_data_in_wage n data f m :
  flag_columns n data f m ->
  make_data_in data = Some (kept data ++ flag_dummies f m).
Proof.
case=> ff mm lf lm _.
by rewrite /make_data_in /get_dummies /= ff mm /= dummy_flags.
Qed.

Lemma setitem_cat_notin df1 df2 k c :
  k \notin keys df1 -> setitem (df1 ++ df2) k c = df1 ++ setitem df2 k c.
Proof.
elim: df1 => [|[k' c'] df1 IH] //=; rewrite inE negb_or eq_sym.
by case/andP=> /negPf-> /IH->.
Qed.

Lemma notin_kept data k :
  keys data = wage_columns -> k \notin wage_columns -> k \notin keys (kept data).
Proof.
by move=> /keys_kept-> /negP kw; apply/negP; rewrite mem_filter => /andP[_].
Qed.

Lemma assign_product_new data df k a b ca cb :
  keys data = wage_columns -> [&& k \notin wage_columns,
    a \notin wage_columns & b \notin wage_columns] ->
  getitem df a = Some ca -> getitem df b = Some cb ->
  assign_product (kept data ++ df) k a b =
  Some (kept data ++ setitem df k (col_mul ca cb)).
Proof.
move=> hd /and3P[/(notin_kept hd) nk /(notin_kept hd) na /(notin_kept hd) nb].
move=> dfa dfb; rewrite /assign_product !getitem_cat.
by rewrite (getitem_notin na) (getitem_notin nb) dfa dfb setitem_cat_notin.
Qed.

(** [data_in] after the four product assignments. *)
Lemma grouped_wage n data f m :
  keys data = wage_columns -> flag_columns n data f m ->
  grouped data = Some (kept data ++ flag_dummies f m ++ group_dummies f m).
Proof.
move=> hd fl; rewrite /grouped (make_data_in_wage fl) /add_groups.
rewrite (@assign_product_new _ _ _ _ _ (U8 F (indicator 1 f))
           (U8 F (indicator 1 m)) hd) //=.
rewrite (@assign_product_new _ _ _ _ _ (U8 F (indicator 0 f))
           (U8 F (indicator 1 m)) hd) //=.
rewrite (@assign_product_new _ _ _ _ _ (U8 F (indicator 1 f))
           (U8 F (indicator 0 m)) hd) //= /add_singmale.
rewrite (@assign_product_new _ _ _ _ _ (U8 F (indicator 0 f))
           (U8 F (indicator 0 m)) hd) //=.
by rewrite !mul_indicator.
Qed.

Implicit Types (s : seq int).

Lemma levels_mem s x : levels s = [:: 0; 1] -> x \in s -> (x == 0) || (x == 1).
Proof. by move=> ls; rewrite -mem_undup -(mem_sort <=%R) -/(levels s) ls !inE. Qed.

Lemma at_row_I64 df name s i :
  getitem df name = Some (I64 F s) -> (i < size s)%N ->
  at_row df name i = Some (nth 0 s i).
Proof. by rewrite /at_row => -> /= ->. Qed.

Lemma at_row_U8 df name s i :
  getitem df name = Some (U8 F s) -> (i < size s)%N ->
  at_row df name i = Some (nth 0 s i).
Proof. by rewrite /at_row => -> /= ->. Qed.

Lemma size_indicator v s : size (indicator v s) = size s.
Proof. by rewrite size_map. Qed.

Lemma nth_indicator v s i :
  (i < size s)%N -> nth 0 (indicator v s) i = (nth 0 s i == v)%:Z.
Proof. by move=> lt; rewrite (nth_map 0). Qed.

Lemma size_group_indicator a b f m :
  size f = size m -> size (group_indicator a b f m) = size f.
Proof. by move=> fm; rewrite size_map size_zip -fm minnn. Qed.

Lemma nth_group_indicator a b f m i :
  size f = size m -> (i < size f)%N ->
  nth 0 (group_indicator a b f m) i = ((nth 0 f i == a) && (nth 0 m i == b))%:Z.
Proof.
move=> fm lt; rewrite (nth_map (0, 0)) ?nth_zip //.
by rewrite size_zip -fm minnn.
Qed.

(** Lookup in [data_in]: a name that is not in the header of [WAGE.csv] is
    looked up among the appended columns. *)
Lemma getitem_appended data df k :
  keys data = wage_columns -> k \notin wage_columns ->
  getitem (kept data ++ df) k = getitem df k.
Proof.
by move=> hd nk; rewrite getitem_cat (getitem_notin (notin_kept hd nk)).
Qed.

(** C3. On a table with the header of [WAGE.csv] and 0/1 flags,
    [get_dummies] succeeds and, on every row, [female_1] is the original
    [female] value, [female_0] is [1 - female], [married_1] is the original
    [married] value and [married_0] is [1 - married]; each pair of dummies
    sums to 1.  The flags are thus recovered from the dummies. *)
Theorem one_hot_round_trip n data :
  wage_table n data ->
  exists2 data_in, make_data_in data = Some data_in &
  forall i, (i < n)%N ->
  exists x y : int,
    [/\ at_row data "female" i = Some x /\ at_row data "married" i = Some y,
        at_row data_in "female_1" i = Some x /\
        at_row data_in "female_0" i = Some (1 - x),
        at_row data_in "married_1" i = Some y /\
        at_row data_in "married_0" i = Some (1 - y),
        oadd (at_row data_in "female_0" i) (at_row data_in "female_1" i) = Some 1 &
        oadd (at_row data_in "married_0" i) (at_row data_in "married_1" i) = Some 1].
Proof.
move=> wt; have /and5P[/eqP hd _ _ _ _] := wt.
have [f [m fl]] := wage_flags wt; have [ff mm lf lm [sf sm]] := fl.
exists (kept data ++ flag_dummies f m); first exact: make_data_in_wage fl.
move=> i ltin; exists (nth 0 f i), (nth 0 m i).
have fi : (i < size f)%N by rewrite sf.
have mi : (i < size m)%N by rewrite sm.
have row v s name : (i < size s)%N ->
    getitem (flag_dummies f m) name = Some (U8 F (indicator v s)) ->
    name \notin wage_columns ->
  at_row (kept data ++ flag_dummies f m) name i = Some (nth 0 s i == v)%:Z.
  move=> si gi nw; rewrite -(nth_indicator _ si); apply: at_row_U8.
    by rewrite getitem_appended.
  by rewrite size_indicator.
case/orP: (levels_mem lf (mem_nth 0 fi)) => /eqP x01;
case/orP: (levels_mem lm (mem_nth 0 mi)) => /eqP y01;
by rewrite !(row 0 f "female_0"%string) ?(row 1 f "female_1"%string) ?(row 0 m "married_0"%string)
           ?(row 1 m "married_1"%string) // (at_row_I64 ff) ?(at_row_I64 mm) //
           x01 y01.
Qed.

(** C2. Once the four products are defined, every row of [data_in] carries
    a 0 or a 1 in each of [marrmale], [marrfem], [singfem] and [singmale],
    exactly one of them is 1 (their sum is 1), and the column that is 1 is
    the one of the row's group: married men ([female = 0], [married = 1]),
    married women, single women, single men. *)
Theorem groups_one_hot n data :
  wage_table n data ->
  exists2 data_in, grouped data = Some data_in &
  forall i, (i < n)%N ->
  exists x y : int,
    at_row data "female" i = Some x /\ at_row data "married" i = Some y /\
    exists a b c d : int,
      [/\ [/\ at_row data_in "marrmale" i = Some a,
              at_row data_in "marrfem" i = Some b,
              at_row data_in "singfem" i = Some c &
              at_row data_in "singmale" i = Some d],
          all (fun v => v \in [:: 0; 1]) [:: a; b; c; d],
          a + b + c + d = 1,
          count (pred1 1) [:: a; b; c; d] = 1%N &
          [/\ (a == 1) = (x == 0) && (y == 1),
              (b == 1) = (x == 1) && (y == 1),
              (c == 1) = (x == 1) && (y == 0) &
              (d == 1) = (x == 0) && (y == 0)]].
Proof.
move=> wt; have /and5P[/eqP hd _ _ _ _] := wt.
have [f [m fl]] := wage_flags wt; have [ff mm lf lm [sf sm]] := fl.
exists (kept data ++ flag_dummies f m ++ group_dummies f m).
  exact: grouped_wage fl.
move=> i ltin; exists (nth 0 f i), (nth 0 m i).
have fi : (i < size f)%N by rewrite sf.
have mi : (i < size m)%N by rewrite sm.
have fm : size f = size m by rewrite sf.
rewrite (at_row_I64 ff) // (at_row_I64 mm) //; do 2!split=> //.
have row a b name :
    getitem (flag_dummies f m ++ group_dummies f m) name =
      Some (U8 F (group_indicator a b f m)) ->
    name \notin wage_columns ->
  at_row (kept data ++ flag_dummies f m ++ group_dummies f m) name i =
  Some ((nth 0 f i == a) && (nth 0 m i == b))%:Z.
  move=> gi nw; rewrite -(nth_group_indicator _ _ fm fi); apply: at_row_U8.
    by rewrite getitem_appended.
  by rewrite size_group_indicator.
exists ((nth 0 f i == 0) && (nth 0 m i == 1))%:Z,
       ((nth 0 f i == 1) && (nth 0 m i == 1))%:Z,
       ((nth 0 f i == 1) && (nth 0 m i == 0))%:Z,
       ((nth 0 f i == 0) && (nth 0 m i == 0))%:Z.
rewrite (row 0 1 "marrmale"%string) ?(row 1 1 "marrfem"%string) ?(row 1 0 "singfem"%string)
        ?(row 0 0 "singmale"%string) //.
case/orP: (levels_mem lf (mem_nth 0 fi)) => /eqP->;
by case/orP: (levels_mem lm (mem_nth 0 mi)) => /eqP->.
Qed.

End DummyConstruction.

Section Vectors.

Variable F : realFieldType.

Lemma size_coefs k (b : 'cV[F]_k) : size (coefs b) = k.
Proof. by elim: k b => [|k IH] b //=; rewrite IH. Qed.

Lemma coefs_col_mx k (a : 'cV[F]_1) (b : 'cV[F]_k) :
  coefs (col_mx a b : 'cV[F]_(k.+1)) = a 0 0 :: coefs b.
Proof. by rewrite /= col_mxKu col_mxKd. Qed.

Lemma coefs_vec_of (s : seq F) : coefs (vec_of s) = s.
Proof.
elim: s => [|x s IH] //=; rewrite col_mxKu col_mxKd IH.
by rewrite mxE eqxx mulr1n.
Qed.

Lemma coefs_inj k : injective (@coefs F k).
Proof.
elim: k => [|k IH] b c /=; first by rewrite [b]flatmx0 [c]flatmx0.
case=> bc /IH dbc.
rewrite -[b](@vsubmxK _ 1 k) -[c](@vsubmxK _ 1 k) dbc.
suff -> : usubmx (b : 'cV_(1 + k)) = usubmx (c : 'cV_(1 + k)) by [].
by apply/matrixP=> i j; rewrite !ord1.
Qed.

Lemma coefs0 k : coefs (0 : 'cV[F]_k) = nseq k 0.
Proof.
by elim: k => [|k IH] //=; rewrite !linear0 mxE IH.
Qed.

(** Replace the four leading entries of a vector, keep the others. *)
Definition lead4 k (b : 'cV[F]_(4 + k)) : F * F * F * F :=
  match coefs b with
  | [:: b0, b1, b2, b3 & _] => (b0, b1, b2, b3)
  | _ => (0, 0, 0, 0)
  end.

Definition tail4 k (b : 'cV[F]_(4 + k)) : 'cV[F]_k :=
  dsubmx (dsubmx (dsubmx (dsubmx (b : 'cV_(1 + (1 + (1 + (1 + k)))))
    : 'cV_(1 + (1 + (1 + k)))) : 'cV_(1 + (1 + k))) : 'cV_(1 + k)).

Definition vec4 k (h : F * F * F * F) (r : 'cV[F]_k) : 'cV[F]_(4 + k) :=
  let: (h0, h1, h2, h3) := h in
  col_mx h0%:M (col_mx h1%:M (col_mx h2%:M (col_mx h3%:M r))).

Definition map4 k (h : F * F * F * F -> F * F * F * F) (b : 'cV[F]_(4 + k)) :
    'cV[F]_(4 + k) :=
  vec4 (h (lead4 b)) (tail4 b).

Lemma coefs_vec4 k h0 h1 h2 h3 (r : 'cV[F]_k) :
  coefs (vec4 (h0, h1, h2, h3) r) = [:: h0, h1, h2, h3 & coefs r].
Proof. by rewrite /= !(col_mxKu, col_mxKd) !mxE !eqxx !mulr1n. Qed.

Lemma coefs4 k (b : 'cV[F]_(4 + k)) :
  coefs b = [:: (lead4 b).1.1.1, (lead4 b).1.1.2, (lead4 b).1.2, (lead4 b).2
             & coefs (tail4 b)].
Proof. by []. Qed.

Lemma vec4_eq0 k h0 h1 h2 h3 (r : 'cV[F]_k) :
  vec4 (h0, h1, h2, h3) r = 0 -> [/\ h0 = 0, h1 = 0, h2 = 0, h3 = 0 & r = 0].
Proof.
move/(congr1 (@coefs F _)); rewrite coefs_vec4 coefs0 /=.
by case=> -> -> -> -> e; split=> //; apply: coefs_inj; rewrite coefs0.
Qed.

Lemma eq0_lead4 k (b : 'cV[F]_(4 + k)) :
  lead4 b = (0, 0, 0, 0) -> tail4 b = 0 -> b = 0.
Proof.
move=> lb tb; apply: coefs_inj; rewrite coefs4 lb tb [RHS]coefs0.
by rewrite coefs0.
Qed.

Lemma lead4_vec4 k h (r : 'cV[F]_k) : lead4 (vec4 h r) = h.
Proof. by case: h => [[[h0 h1] h2] h3]; rewrite /lead4 coefs_vec4. Qed.

Lemma tail4_vec4 k h (r : 'cV[F]_k) : tail4 (vec4 h r) = r.
Proof. by case: h => [[[h0 h1] h2] h3]; rewrite /tail4 /= !col_mxKd. Qed.

Lemma series_get_zip (names : seq string) (vs : seq F) name :
  size vs = size names -> name \in names ->
  series_get (zip names vs) name = Some (nth 0 vs (index name names)).
Proof.
elim: names vs => [|k names IH] [|v vs] //= [sz]; rewrite inE eq_sym.
by case: eqP => //= _; apply: IH.
Qed.

End Vectors.


(* ------------------------------------------------------------------ *)
(** * Least squares: minimisers, normal equations, uniqueness *)
(* ------------------------------------------------------------------ *)

Section LeastSquares.

Variable F : realFieldType.

Lemma sumsq_ge0 m (v : 'cV[F]_m) : 0 <= sumsq v.
Proof. by apply: sumr_ge0 => i _; rewrite sqr_ge0. Qed.

Lemma sumsq_eq0 m (v : 'cV[F]_m) : sumsq v = 0 -> v = 0.
Proof.
move/eqP; rewrite /sumsq psumr_eq0; first by move=> i _; rewrite sqr_ge0.
move/allP=> z; apply/colP=> i; rewrite mxE; apply/eqP.
by rewrite -sqrf_eq0; apply: z; rewrite mem_index_enum.
Qed.

Lemma dotE m (u v : 'cV[F]_m) : dot u v = (u^T *m v) 0 0.
Proof. by rewrite mxE; apply: eq_bigr => i _; rewrite mxE. Qed.

Lemma dotxx m (v : 'cV[F]_m) : dot v v = sumsq v.
Proof. by apply: eq_bigr => i _; rewrite expr2. Qed.

Lemma dot_adjoint m p (A : 'M[F]_(m, p)) (u : 'cV[F]_m) (w : 'cV[F]_p) :
  dot u (A *m w) = dot (A^T *m u) w.
Proof. by rewrite !dotE trmx_mul trmxK mulmxA. Qed.

Lemma dot0l m (v : 'cV[F]_m) : dot 0 v = 0.
Proof. by rewrite /dot big1 // => i _; rewrite mxE mul0r. Qed.

Lemma sumsqD m (u v : 'cV[F]_m) :
  sumsq (u + v) = sumsq u + dot u v *+ 2 + sumsq v.
Proof.
rewrite /sumsq /dot -sumrMnl -!big_split /=.
by apply: eq_bigr => i _; rewrite mxE sqrrD.
Qed.

Lemma sumsqZ m (t : F) (v : 'cV[F]_m) : sumsq (t *: v) = t ^+ 2 * sumsq v.
Proof.
by rewrite /sumsq mulr_sumr; apply: eq_bigr => i _; rewrite mxE exprMn.
Qed.

Lemma dotZr m (t : F) (u v : 'cV[F]_m) : dot u (t *: v) = t * dot u v.
Proof.
by rewrite /dot mulr_sumr; apply: eq_bigr => i _; rewrite mxE mulrCA.
Qed.

Section Theory.
Variables (n k : nat) (X : 'M[F]_(n, k)) (y : 'cV[F]_n).
Implicit Types (b c w : 'cV[F]_k) (u v : 'cV[F]_n).

Lemma ssr_shift b w :
  ssr X y (b + w) =
  ssr X y b - dot (X^T *m (y - X *m b)) w *+ 2 + sumsq (X *m w).
Proof.
rewrite /ssr mulmxDr opprD addrA sumsqD -dot_adjoint.
have -> : - (X *m w) = (-1) *: (X *m w) by rewrite scaleN1r.
by rewrite dotZr sumsqZ mulN1r sqrrN expr1n mul1r mulNrn.
Qed.

Lemma normal_least_squares b :
  normal_equations X y b -> least_squares X y b.
Proof.
move=> ne c; rewrite -[c](subrKC b) ssr_shift ne dot0l mul0rn subr0.
by rewrite lerDl sumsq_ge0.
Qed.

Lemma least_squares_normal b :
  least_squares X y b -> normal_equations X y b.
Proof.
move=> ls; set g := X^T *m (y - X *m b); apply: sumsq_eq0.
set s := sumsq g; set q := sumsq (X *m g).
have s0 : 0 <= s by apply: sumsq_ge0.
have q0 : 0 <= q by apply: sumsq_ge0.
have step t : 0 <= t ^+ 2 * q - (t * s) *+ 2.
  have := ls (b + t *: g); rewrite ssr_shift -/g dotZr dotxx -/s.
  by rewrite -scalemxAr sumsqZ -/q -addrA lerDl addrC.
apply/eqP; rewrite eq_le s0 andbT.
have [q_eq0|q_neq0] := eqVneq q 0.
  by have := step 1; rewrite q_eq0 mulr0 sub0r mul1r oppr_ge0 pmulrn_lle0.
have := step (s / q).
rewrite expr2 -mulrA divfK // mulr2n opprD addrA subrr sub0r oppr_ge0 => h.
have : s / q * s == 0.
  by rewrite eq_le h /= mulr_ge0 // divr_ge0.
by rewrite !mulf_eq0 invr_eq0 (negPf q_neq0) orbF orbb => /eqP->.
Qed.

Lemma full_col_rank_inj w : full_col_rank X -> X *m w = 0 -> w = 0.
Proof.
rewrite /full_col_rank -mxrank_tr -/(row_free X^T) => fr Xw.
apply: trmx_inj; apply/eqP; rewrite trmx0 -(mulmx_free_eq0 _ fr).
by rewrite -trmx_mul Xw trmx0.
Qed.

Lemma inj_full_col_rank :
  (forall w, X *m w = 0 -> w = 0) -> full_col_rank X.
Proof.
move=> inj; rewrite /full_col_rank -mxrank_tr -/(row_free X^T) -kermx_eq0.
apply/eqP/row_matrixP => i; rewrite row0.
apply: trmx_inj; rewrite trmx0; apply: inj.
by apply: trmx_inj; rewrite trmx_mul trmxK trmx0 -row_mul mulmx_ker row0.
Qed.

Lemma least_squares_fitted b c :
  least_squares X y b -> least_squares X y c -> X *m b = X *m c.
Proof.
move=> /least_squares_normal nb /least_squares_normal nc.
apply/eqP; rewrite -subr_eq0 -mulmxBr; apply/eqP/sumsq_eq0.
rewrite -dotxx dot_adjoint.
have -> : X *m (b - c) = (y - X *m c) - (y - X *m b).
  by rewrite mulmxBr opprB [RHS]addrC addrA subrK.
by rewrite mulmxBr [X in X - _]nc [X in _ - X]nb subrr dot0l.
Qed.

Lemma least_squares_unique b c :
  full_col_rank X -> least_squares X y b -> least_squares X y c -> b = c.
Proof.
move=> fr lb lc; apply/eqP; rewrite -subr_eq0; apply/eqP.
by apply: (full_col_rank_inj fr); rewrite mulmxBr (least_squares_fitted lb lc) subrr.
Qed.

End Theory.

Lemma gram_unit n k (X : 'M[F]_(n, k)) :
  full_col_rank X -> X^T *m X \in unitmx.
Proof.
move=> fr; rewrite -row_free_unit; apply: inj_full_col_rank => w Gw.
apply: (full_col_rank_inj fr); apply: sumsq_eq0.
by rewrite -dotxx dot_adjoint mulmxA Gw dot0l.
Qed.

Lemma closed_form_normal n k (X : 'M[F]_(n, k)) y :
  full_col_rank X -> normal_equations X y (closed_form X y).
Proof.
move=> /gram_unit G; rewrite /normal_equations /closed_form mulmxBr.
by rewrite !mulmxA mulmxV // mul1mx subrr.
Qed.

Lemma closed_form_is_ols : is_ols (@closed_form F).
Proof.
by move=> n k X y fr; apply/normal_least_squares/closed_form_normal.
Qed.

(** Two designs with the same column space: a linear change of
    coordinates [S], with right inverse [T], carries the least-squares
    estimate of one to that of the other, and the fitted values agree. *)
Lemma reparam fit n k (X X' : 'M[F]_(n, k)) (y : 'cV[F]_n)
    (S T : 'cV[F]_k -> 'cV[F]_k) :
  is_ols fit -> full_col_rank X ->
  (forall c, X' *m S c = X *m c) -> (forall c, X *m T c = X' *m c) ->
  (forall c, T c = 0 -> c = 0) ->
  [/\ full_col_rank X', fit n k X' y = S (fit n k X y) &
      X' *m fit n k X' y = X *m fit n k X y].
Proof.
move=> ols fr XS XT T0.
have fr' : full_col_rank X'.
  apply: inj_full_col_rank => c X'c; apply: T0.
  by apply: (full_col_rank_inj fr); rewrite XT.
have e : fit n k X' y = S (fit n k X y).
  apply: (least_squares_unique fr' (ols _ _ X' y fr')) => c.
  by rewrite /ssr XS -(XT c); apply: ols.
by split=> //; rewrite e XS.
Qed.

Lemma is_ols_closed_form fit n k (X : 'M[F]_(n, k)) y :
  is_ols fit -> full_col_rank X -> fit n k X y = closed_form X y.
Proof.
move=> ols fr; apply: (least_squares_unique fr (ols _ _ X y fr)).
exact: closed_form_is_ols.
Qed.

End LeastSquares.

Section SummaryTheory.

Variable F : realFieldType.

(** R-squared and the F statistic are functions of the response, the
    fitted values and the rank of the model matrix. *)
Lemma summary_eq (r r' : results F) :
  endog (design_of r) = endog (design_of r') ->
  fittedvalues r = fittedvalues r' ->
  \rank (model_matrix (design_of r)) = \rank (model_matrix (design_of r')) ->
  rsquared r = rsquared r' /\ fvalue r = fvalue r'.
Proof.
case: r => fm o [y X] ps fv; case: r' => fm' o' [y' X'] ps' fv' /= ey ef.
case: _ / ey; case: _ / ef => rk.
by rewrite /rsquared /fvalue /ssr_of /centered_tss /df_model /df_resid /nobs /= rk.
Qed.

End SummaryTheory.

(* ------------------------------------------------------------------ *)
(** * Fitted designs *)
(* ------------------------------------------------------------------ *)

Section Regression.

Variable F : realFieldType.

(** Ring normalisation in [F]: the operations are first put in one
    syntactic form. *)
Definition Fc : Type := F.
Definition Fadd : Fc -> Fc -> Fc := +%R.
Definition Fmul : Fc -> Fc -> Fc := *%R.
Definition Fopp : Fc -> Fc := -%R.
Definition Fsub : Fc -> Fc -> Fc := fun x y => x - y.
Definition F0 : Fc := 0.
Definition F1 : Fc := 1.

Lemma Fc_ring_theory : ring_theory F0 F1 Fadd Fmul Fsub Fopp (@eq Fc).
Proof.
split=> //; [exact: add0r|exact: addrC|exact: addrA|exact: mul1r|exact: mulrC
  |exact: mulrA|exact: mulrDl|exact: subrr].
Qed.

Add Ring Fc_ring : Fc_ring_theory.

Ltac fold_ring :=
  repeat match goal with
  | |- context [@Algebra.add ?V ?x ?y] =>
      change (@Algebra.add V x y) with (Fadd x y)
  | |- context [@GRing.mul ?V ?x ?y] =>
      change (@GRing.mul V x y) with (Fmul x y)
  | |- context [@Algebra.opp ?V ?x] =>
      change (@Algebra.opp V x) with (Fopp x)
  | |- context [@Algebra.zero ?V] => change (@Algebra.zero V) with F0
  | |- context [@GRing.one ?V] => change (@GRing.one V) with F1
  end.

Ltac fring :=
  fold_ring;
  match goal with |- @eq _ ?a ?b => change (@eq Fc a b) end;
  ring.

Implicit Types (cols : seq (regressor F)) (y : seq F) (f : seq int).

Lemma col_vecE n (s : seq F) (i : 'I_n) : col_vec n s i 0 = nth 0 s i.
Proof. by rewrite mxE. Qed.

(** Row [i] of [X b], read off the list of regressors. *)
Lemma design_mx_mul n cols (b : 'cV[F]_(size cols)) (i : 'I_n) :
  (design_mx n cols *m b) i 0 =
  \sum_(p <- zip cols (coefs b)) nth 0 p.1.2 i * p.2.
Proof.
elim: cols b => [|c cols IH] b /=; first by rewrite big_nil mul0mx mxE.
rewrite big_cons -[b in LHS](@vsubmxK _ 1 (size cols)).
rewrite (mul_row_col (col_vec n c.2) (design_mx n cols)) mxE IH.
by congr (_ + _); rewrite mxE big_ord1 mxE.
Qed.

(** The normal equations say that the residual is orthogonal to every
    regressor. *)
Lemma design_mx_tr_mul n cols (r : 'cV[F]_n) :
  (forall c, c \in cols -> dot (col_vec n c.2) r = 0) ->
  (design_mx n cols)^T *m r = 0.
Proof.
elim: cols => [|c cols IH] /= orth; first by apply/matrixP=> -[].
rewrite (tr_row_mx (col_vec n c.2) (design_mx n cols)).
rewrite (mul_col_mx (col_vec n c.2)^T (design_mx n cols)^T r).
rewrite IH => [c' c'in|]; first by apply: orth; rewrite inE c'in orbT.
suff -> : (col_vec n c.2)^T *m r = 0 by rewrite col_mx0.
by apply/matrixP=> i j; rewrite !ord1 -dotE orth ?mem_head // mxE.
Qed.

Lemma sum_rows n f y (g : int -> F -> F) :
  size f = n -> size y = n ->
  \sum_(i < n) g (nth 0 f i) (nth 0 y i) = \sum_(p <- zip f y) g p.1 p.2.
Proof.
move=> sf sy; rewrite [RHS](big_nth (0, 0)) size_zip sf sy minnn big_mkord.
by apply: eq_bigr => i _; rewrite nth_zip ?sf ?sy.
Qed.

(** The rows of one group: their number, their sum, their mean. *)
Definition group (v : int) f y : seq F := mask [seq x == v | x <- f] y.

Lemma size_group v f y : size f = size y -> size (group v f y) = count_mem v f.
Proof.
move=> sfy; rewrite /group size_mask ?size_map // count_map.
by apply: eq_count => x /=; rewrite eq_sym.
Qed.

Lemma sum_group v (c : F) f y :
  size f = size y ->
  \sum_(p <- zip f y) (if p.1 == v then p.2 - c else 0) =
  \sum_(t <- group v f y) t - (size (group v f y))%:R * c.
Proof.
rewrite /group; elim: f y => [|x f IH] [|t y] //=.
  by rewrite !big_nil mul0r subr0.
case=> /IH e; rewrite big_cons e; case: (x == v) => /=; last by rewrite add0r.
by rewrite big_cons -nat1r mulrDl mul1r opprD addrACA.
Qed.

Lemma mean_group v f y :
  size f = size y -> v \in f ->
  \sum_(t <- group v f y) t - (size (group v f y))%:R * mean (group v f y) = 0.
Proof.
move=> sfy vf; rewrite /mean mulrC divfK ?subrr // pnatr_eq0 size_group //.
by rewrite -lt0n -has_count has_pred1.
Qed.

Lemma levels_has f v : levels f = [:: 0; 1] -> v \in [:: 0; 1] -> v \in f.
Proof. by move=> lf; rewrite -lf mem_sort mem_undup. Qed.

Section DummyRegression.

Variable fit : forall n k : nat, 'M[F]_(n, k) -> 'cV[F]_n -> 'cV[F]_k.
Hypothesis ols : is_ols fit.
Variables (y : seq F) (f : seq int).
Hypotheses (sfy : size f = size y) (lf : levels f = [:: 0; 1]).

(** The design of [wage ~ 1 + female]. *)
Definition dummy_design : design F :=
  Design y [:: ("Intercept"%string, nseq (size y) 1);
               ("female"%string, [seq x%:~R | x <- f])].

Let x_ (i : 'I_(size y)) : int := nth 0 f i.

Lemma x01 i : (x_ i == 0) || (x_ i == 1).
Proof. by apply: (levels_mem lf); rewrite mem_nth // sfy. Qed.

Lemma dummy_row (c : 'cV[F]_2) i :
  (model_matrix dummy_design *m c) i 0 =
  nth 0 (coefs c) 0 + (x_ i)%:~R * nth 0 (coefs c) 1.
Proof.
rewrite /model_matrix (design_mx_mul (cols := exog dummy_design)) /=.
by rewrite !big_cons big_nil /= addr0 nth_nseq ltn_ord mul1r (nth_map 0) ?sfy.
Qed.

Lemma row_of v : v \in [:: 0; 1] -> exists i, x_ i = v.
Proof.
move=> /(levels_has lf) vf; have lt : (index v f < size y)%N.
  by rewrite -sfy index_mem.
by exists (Ordinal lt); rewrite /x_ /= nth_index.
Qed.

Lemma dummy_design_rank : full_col_rank (model_matrix dummy_design).
Proof.
apply: inj_full_col_rank => c Xc; apply: coefs_inj; rewrite coefs0 /=.
have row i : nth 0 (coefs c) 0 + (x_ i)%:~R * nth 0 (coefs c) 1 = 0.
  by rewrite -dummy_row Xc mxE.
have [i0 x0] := row_of (mem_head 0 [:: 1]).
have [i1 x1] : exists i, x_ i = 1 by apply: row_of; rewrite !inE.
have c0 : usubmx (c : 'cV_(1 + 1)) 0 0 = 0.
  by have /= := row i0; rewrite x0 mul0r addr0.
have /= := row i1; rewrite x1 c0 add0r mul1r => ->.
by [].
Qed.

(** The means of the two groups solve the normal equations. *)
Definition group_means : seq F :=
  [:: mean (group 0 f y); mean (group 1 f y) - mean (group 0 f y)].

Lemma resid00 (a b t : F) : 1 * (t - (a + 0 * (b - a))) = 0 + (t - a).
Proof. by fring. Qed.

Lemma resid01 (a b t : F) : 1 * (t - (a + 1 * (b - a))) = (t - b) + 0.
Proof. by fring. Qed.

Lemma resid10 (a b t : F) : 0 * (t - (a + 0 * (b - a))) = 0.
Proof. by fring. Qed.

Lemma resid11 (a b t : F) : 1 * (t - (a + 1 * (b - a))) = t - b.
Proof. by fring. Qed.

Lemma dummy_normal :
  normal_equations (model_matrix dummy_design) (col_vec (size y) y)
                   (vec_of group_means).
Proof.
set m0 := mean (group 0 f y); set m1 := mean (group 1 f y).
have sum0 : \sum_(p <- zip f y) (if p.1 == 0 then p.2 - m0 else 0) = 0.
  by rewrite sum_group // mean_group // (levels_has lf).
have sum1 : \sum_(p <- zip f y) (if p.1 == 1 then p.2 - m1 else 0) = 0.
  by rewrite sum_group // mean_group // (levels_has lf).
have res i : (col_vec (size y) y - model_matrix dummy_design *m vec_of group_means) i 0 =
             nth 0 y i - (m0 + (x_ i)%:~R * (m1 - m0)).
  rewrite mxE col_vecE mxE (dummy_row (vec_of group_means)).
  by rewrite (coefs_vec_of group_means).
apply: design_mx_tr_mul => c; rewrite !inE => /orP[] /eqP-> /=.
- pose g (x : int) (t : F) : F :=
    (if x == 1 then t - m1 else 0) + (if x == 0 then t - m0 else 0).
  have <- : \sum_(i < size y) g (nth 0 f i) (nth 0 y i) = 0.
    by rewrite (sum_rows g sfy) // /g big_split /= sum1 sum0 addr0.
  apply: eq_bigr => i _; rewrite res col_vecE nth_nseq ltn_ord /g.
  case/orP: (x01 i) => /eqP e; rewrite /x_ in e *; rewrite e /=.
    by rewrite mulr0z; exact: resid00.
  by rewrite mulr1z; exact: resid01.
pose g (x : int) (t : F) : F := if x == 1 then t - m1 else 0.
have <- : \sum_(i < size y) g (nth 0 f i) (nth 0 y i) = 0.
  by rewrite (sum_rows g sfy).
apply: eq_bigr => i _; rewrite res col_vecE (nth_map 0) ?sfy // /g.
case/orP: (x01 i) => /eqP e; rewrite /x_ in e *; rewrite e /=.
  by rewrite mulr0z; exact: resid10.
by rewrite mulr1z; exact: resid11.
Qed.

Lemma dummy_estimate : estimate fit dummy_design = vec_of group_means.
Proof.
apply: (least_squares_unique dummy_design_rank (ols _ _)) => //.
  exact: dummy_design_rank.
exact/normal_least_squares/dummy_normal.
Qed.

(** The intercept is the mean of the base group; intercept plus slope is
    the mean of the other group. *)
Lemma dummy_params :
  ols_fit fit dummy_design =
  [:: ("Intercept"%string, mean (group 0 f y));
      ("female"%string, mean (group 1 f y) - mean (group 0 f y))].
Proof. by rewrite /ols_fit dummy_estimate (coefs_vec_of group_means). Qed.

End DummyRegression.

Section GroupRegression.

Variable fit : forall n k : nat, 'M[F]_(n, k) -> 'cV[F]_n -> 'cV[F]_k.
Hypothesis ols : is_ols fit.
Variables (y : seq F) (f m : seq int) (ctl : seq (regressor F)).
Hypotheses (sfy : size f = size y) (smy : size m = size y).
Hypotheses (lf : levels f = [:: 0; 1]) (lm : levels m = [:: 0; 1]).

Definition ones : regressor F := ("Intercept"%string, nseq (size y) 1).

Definition gcol (name : string) (a b : int) : regressor F :=
  (name, [seq x%:~R | x <- group_indicator a b f m]).

(** The designs of the three fits of [lwage] on the four groups: dummies
    with single men as the base group, dummies with married women as the
    base group, and the two flags with their interaction. *)
Definition base_single_men : design F :=
  Design y [:: ones, gcol "marrmale" 0 1, gcol "marrfem" 1 1,
               gcol "singfem" 1 0 & ctl].

Definition base_married_women : design F :=
  Design y [:: ones, gcol "marrmale" 0 1, gcol "singfem" 1 0,
               gcol "singmale" 0 0 & ctl].

Definition interacted : design F :=
  Design y [:: ones, ("C(female)[T.1]"%string, [seq (x == 1)%:R | x <- f]),
               ("C(married)[T.1]"%string, [seq (x == 1)%:R | x <- m]),
               ("C(female)[T.1]:C(married)[T.1]"%string,
                zipmul [seq (x == 1)%:R | x <- f] [seq (x == 1)%:R | x <- m])
             & ctl].

Implicit Types (i : 'I_(size y)) (b c : 'cV[F]_(4 + size ctl)).

Let p_ i : bool := nth 0 f i == 1.
Let q_ i : bool := nth 0 m i == 1.

Definition rest i (r : 'cV[F]_(size ctl)) : F :=
  \sum_(t <- zip ctl (coefs r)) nth 0 t.1.2 i * t.2.

Definition lin4 (u h : F * F * F * F) : F :=
  u.1.1.1 * h.1.1.1 + (u.1.1.2 * h.1.1.2 + (u.1.2 * h.1.2 + u.2 * h.2)).

Lemma row4 (c1 c2 c3 c4 : regressor F) b i :
  (design_mx (size y) [:: c1, c2, c3, c4 & ctl] *m b) i 0 =
  lin4 (nth 0 c1.2 i, nth 0 c2.2 i, nth 0 c3.2 i, nth 0 c4.2 i) (lead4 b) +
  rest i (tail4 b).
Proof.
rewrite (design_mx_mul (cols := [:: c1, c2, c3, c4 & ctl])) coefs4 /=.
by rewrite !big_cons /lin4 /rest /= -!addrA.
Qed.

Lemma ones_row i : nth 0 ones.2 i = 1.
Proof. by rewrite nth_nseq ltn_ord. Qed.

Lemma flag_f i : (nth 0 f i == 0) = ~~ p_ i.
Proof.
have := levels_mem lf (mem_nth 0 (_ : (i < size f)%N)).
by rewrite sfy ltn_ord /p_ => /(_ isT) /orP[] /eqP->.
Qed.

Lemma flag_m i : (nth 0 m i == 0) = ~~ q_ i.
Proof.
have := levels_mem lm (mem_nth 0 (_ : (i < size m)%N)).
by rewrite smy ltn_ord /q_ => /(_ isT) /orP[] /eqP->.
Qed.

Lemma gcol_row name (u v : int) i :
  nth 0 (gcol name u v).2 i = ((nth 0 f i == u) && (nth 0 m i == v))%:R.
Proof.
have fm : size f = size m by rewrite sfy.
rewrite (nth_map 0) ?size_group_indicator ?sfy //.
by rewrite nth_group_indicator ?sfy // -pmulrn.
Qed.

Lemma tcode_row (s : seq int) i :
  size s = size y -> nth 0 [seq (x == 1)%:R | x <- s] i = (nth 0 s i == 1)%:R :> F.
Proof. by move=> ss; rewrite (nth_map 0) ?ss. Qed.

Lemma tcode2_row i :
  nth 0 (zipmul [seq (x == 1)%:R | x <- f] [seq (x == 1)%:R | x <- m]) i =
  (p_ i)%:R * (q_ i)%:R :> F.
Proof.
rewrite (nth_map (0, 0)) ?size_zip ?size_map ?sfy ?smy ?minnn //.
by rewrite nth_zip ?size_map ?sfy ?smy //= !tcode_row.
Qed.

(** Row [i] of each design: its four leading entries, by the group of
    the row. *)
Definition e_sm (p q : bool) : F * F * F * F :=
  (1, (~~ p && q)%:R, (p && q)%:R, (p && ~~ q)%:R).

Definition e_mw (p q : bool) : F * F * F * F :=
  (1, (~~ p && q)%:R, (p && ~~ q)%:R, (~~ p && ~~ q)%:R).

Definition e_int (p q : bool) : F * F * F * F :=
  (1, p%:R, q%:R, p%:R * q%:R).

Lemma row_sm b i :
  (model_matrix base_single_men *m b) i 0 =
  lin4 (e_sm (p_ i) (q_ i)) (lead4 b) + rest i (tail4 b).
Proof.
have := row4 ones (gcol "marrmale" 0 1) (gcol "marrfem" 1 1)
             (gcol "singfem" 1 0) b i.
by rewrite ones_row !gcol_row !flag_f !flag_m.
Qed.

Lemma row_mw b i :
  (model_matrix base_married_women *m b) i 0 =
  lin4 (e_mw (p_ i) (q_ i)) (lead4 b) + rest i (tail4 b).
Proof.
have := row4 ones (gcol "marrmale" 0 1) (gcol "singfem" 1 0)
             (gcol "singmale" 0 0) b i.
by rewrite ones_row !gcol_row !flag_f !flag_m.
Qed.

Lemma row_int b i :
  (model_matrix interacted *m b) i 0 =
  lin4 (e_int (p_ i) (q_ i)) (lead4 b) + rest i (tail4 b).
Proof.
have := row4 ones (nth ones (exog interacted) 1) (nth ones (exog interacted) 2)
             (nth ones (exog interacted) 3) b i.
by rewrite ones_row /= !tcode_row // tcode2_row.
Qed.

(** The changes of coordinates between the three parameterisations. *)
Definition to_mw (h : F * F * F * F) : F * F * F * F :=
  let: (a, d0, d1, d2) := h in (a + d1, d0 - d1, d2 - d1, - d1).

Definition of_mw (h : F * F * F * F) : F * F * F * F :=
  let: (a, e0, e1, e2) := h in (a + e2, e0 - e2, - e2, e1 - e2).

Definition to_int (h : F * F * F * F) : F * F * F * F :=
  let: (a, d0, d1, d2) := h in (a, d2, d0, d1 - d0 - d2).

Definition of_int (h : F * F * F * F) : F * F * F * F :=
  let: (a, g1, g2, g3) := h in (a, g2, g1 + g2 + g3, g1).

Lemma to_mwP p q h : lin4 (e_mw p q) (to_mw h) = lin4 (e_sm p q) h.
Proof.
case: h => [[[a d0] d1] d2]; rewrite /lin4 /=.
by case: p; case: q; rewrite /= ?mulr1n ?mulr0n; fring.
Qed.

Lemma of_mwP p q h : lin4 (e_sm p q) (of_mw h) = lin4 (e_mw p q) h.
Proof.
case: h => [[[a d0] d1] d2]; rewrite /lin4 /=.
by case: p; case: q; rewrite /= ?mulr1n ?mulr0n; fring.
Qed.

Lemma to_intP p q h : lin4 (e_int p q) (to_int h) = lin4 (e_sm p q) h.
Proof.
case: h => [[[a d0] d1] d2]; rewrite /lin4 /=.
by case: p; case: q; rewrite /= ?mulr1n ?mulr0n; fring.
Qed.

Lemma of_intP p q h : lin4 (e_sm p q) (of_int h) = lin4 (e_int p q) h.
Proof.
case: h => [[[a d0] d1] d2]; rewrite /lin4 /=.
by case: p; case: q; rewrite /= ?mulr1n ?mulr0n; fring.
Qed.

Lemma of_mw_eq0 h : of_mw h = (0, 0, 0, 0) -> h = (0, 0, 0, 0).
Proof.
case: h => [[[a e0] e1] e2] [ae e0e /eqP]; rewrite oppr_eq0 => /eqP e2e.
by move: ae e0e; rewrite e2e addr0 !subr0 => -> -> ->.
Qed.

Lemma of_int_eq0 h : of_int h = (0, 0, 0, 0) -> h = (0, 0, 0, 0).
Proof.
case: h => [[[a g1] g2] g3] [-> -> + g1e].
by rewrite g1e add0r add0r => ->.
Qed.

Lemma map4_eq0 (T : F * F * F * F -> F * F * F * F) c :
  (forall h, T h = (0, 0, 0, 0) -> h = (0, 0, 0, 0)) ->
  map4 T c = 0 -> c = 0.
Proof.
move=> T0; rewrite /map4; case e: (T _) => [[[h0 h1] h2] h3].
case/vec4_eq0=> e0 e1 e2 e3 tc; apply: eq0_lead4 => //; apply: T0.
by rewrite e e0 e1 e2 e3.
Qed.

Hypothesis full_rank : full_col_rank (model_matrix base_single_men).

Let b_sm := estimate fit base_single_men.

Lemma married_women_fit :
  [/\ full_col_rank (model_matrix base_married_women),
      estimate fit base_married_women = map4 to_mw b_sm &
      model_matrix base_married_women *m estimate fit base_married_women =
      model_matrix base_single_men *m b_sm].
Proof.
apply: (@reparam _ fit _ _ _ _ _ (map4 to_mw) (map4 of_mw)) => // [c|c|c].
- by apply/colP=> i; rewrite row_mw row_sm lead4_vec4 tail4_vec4 to_mwP.
- by apply/colP=> i; rewrite row_mw row_sm lead4_vec4 tail4_vec4 of_mwP.
by apply: map4_eq0; apply: of_mw_eq0.
Qed.

Lemma interacted_fit :
  [/\ full_col_rank (model_matrix interacted),
      estimate fit interacted = map4 to_int b_sm &
      model_matrix interacted *m estimate fit interacted =
      model_matrix base_single_men *m b_sm].
Proof.
apply: (@reparam _ fit _ _ _ _ _ (map4 to_int) (map4 of_int)) => // [c|c|c].
- by apply/colP=> i; rewrite row_int row_sm lead4_vec4 tail4_vec4 to_intP.
- by apply/colP=> i; rewrite row_int row_sm lead4_vec4 tail4_vec4 of_intP.
by apply: map4_eq0; apply: of_int_eq0.
Qed.

Lemma single_men_params :
  ols_fit fit base_single_men =
  [:: ("Intercept"%string, (lead4 b_sm).1.1.1),
      ("marrmale"%string, (lead4 b_sm).1.1.2),
      ("marrfem"%string, (lead4 b_sm).1.2),
      ("singfem"%string, (lead4 b_sm).2)
    & zip [seq x.1 | x <- ctl] (coefs (tail4 b_sm))].
Proof. by rewrite /ols_fit -/b_sm [coefs b_sm]coefs4. Qed.

Lemma married_women_params :
  ols_fit fit base_married_women =
  [:: ("Intercept"%string, (lead4 b_sm).1.1.1 + (lead4 b_sm).1.2),
      ("marrmale"%string, (lead4 b_sm).1.1.2 - (lead4 b_sm).1.2),
      ("singfem"%string, (lead4 b_sm).2 - (lead4 b_sm).1.2),
      ("singmale"%string, - (lead4 b_sm).1.2)
    & zip [seq x.1 | x <- ctl] (coefs (tail4 b_sm))].
Proof.
have [_ e _] := married_women_fit; rewrite /ols_fit e /map4.
case: (lead4 b_sm) => [[[a d0] d1] d2]; rewrite [to_mw _]/=.
by rewrite (coefs_vec4 _ _ _ _ (tail4 b_sm)).
Qed.

Lemma interacted_params :
  ols_fit fit interacted =
  [:: ("Intercept"%string, (lead4 b_sm).1.1.1),
      ("C(female)[T.1]"%string, (lead4 b_sm).2),
      ("C(married)[T.1]"%string, (lead4 b_sm).1.1.2),
      ("C(female)[T.1]:C(married)[T.1]"%string,
       (lead4 b_sm).1.2 - (lead4 b_sm).1.1.2 - (lead4 b_sm).2)
    & zip [seq x.1 | x <- ctl] (coefs (tail4 b_sm))].
Proof.
have [_ e _] := interacted_fit; rewrite /ols_fit e /map4.
case: (lead4 b_sm) => [[[a d0] d1] d2]; rewrite [to_int _]/=.
by rewrite (coefs_vec4 _ _ _ _ (tail4 b_sm)).
Qed.

Lemma married_women_predict :
  ols_predict fit base_married_women = ols_predict fit base_single_men.
Proof. by have [_ _ e] := married_women_fit; rewrite /ols_predict e. Qed.

Lemma interacted_predict :
  ols_predict fit interacted = ols_predict fit base_single_men.
Proof. by have [_ _ e] := interacted_fit; rewrite /ols_predict e. Qed.

(** The three fits at a glance: four numbers and the coefficients of the
    controls determine all three series of estimates, and the fitted
    values are shared. *)
Lemma group_fits :
  exists (a d0 d1 d2 : F) (others : seq (string * F)),
    [/\ ols_fit fit base_single_men =
        [:: ("Intercept"%string, a), ("marrmale"%string, d0),
            ("marrfem"%string, d1), ("singfem"%string, d2) & others],
        ols_fit fit base_married_women =
        [:: ("Intercept"%string, a + d1), ("marrmale"%string, d0 - d1),
            ("singfem"%string, d2 - d1), ("singmale"%string, - d1) & others],
        ols_fit fit interacted =
        [:: ("Intercept"%string, a), ("C(female)[T.1]"%string, d2),
            ("C(married)[T.1]"%string, d0),
            ("C(female)[T.1]:C(married)[T.1]"%string, d1 - d0 - d2)
          & others],
        ols_predict fit base_married_women = ols_predict fit base_single_men &
        ols_predict fit interacted = ols_predict fit base_single_men].
Proof.
exists (lead4 b_sm).1.1.1, (lead4 b_sm).1.1.2, (lead4 b_sm).1.2, (lead4 b_sm).2.
exists (zip [seq x.1 | x <- ctl] (coefs (tail4 b_sm))); split.
- exact: single_men_params.
- exact: married_women_params.
- exact: interacted_params.
- exact: married_women_predict.
exact: interacted_predict.
Qed.

End GroupRegression.

End Regression.

(* ------------------------------------------------------------------ *)
(** * The notebook, run *)
(* ------------------------------------------------------------------ *)

(** The model data of the six regressions, read off the loaded table:
    the responses and the regressors with their values. *)
Definition specifications (F : realFieldType) (wage : frame F) :
    seq (design F) :=
  let w := floats_at wage "wage" in
  let lw := floats_at wage "lwage" in
  let f := ints_at wage "female" in
  let m := ints_at wage "married" in
  let x k := (k, floats_at wage k) in
  [:: Design w [:: ones w; x "female"; x "educ"; x "exper"; x "tenure"]%string;
      dummy_design w f;
      base_single_men lw f m (wage_controls wage);
      base_married_women lw f m (wage_controls wage);
      interacted lw f m (wage_controls wage);
      Design lw [:: ones lw;
                    ("C(female)[T.1]", [seq (i == 1)%:R | i <- f]);
                    x "educ";
                    ("C(female)[T.1]:educ",
                     zipmul [seq (i == 1)%:R | i <- f] (floats_at wage "educ"));
                    x "exper"; x "expersq"; x "tenure"; x "tenursq"]%string].

Section RunLemmas.

Variable F : realFieldType.
Variable fit : forall n k : nat, 'M[F]_(n, k) -> 'cV[F]_n -> 'cV[F]_k.
Variable disk : string -> option (frame F).

Lemma series_get_ols_fit (d : design F) name :
  name \in [seq c.1 | c <- exog d] ->
  series_get (ols_fit fit d) name = Some (param fit d name).
Proof.
by move=> ?; rewrite /ols_fit series_get_zip // size_coefs size_map.
Qed.

Lemma size_floats_of (c : column F) : size (floats_of c) = col_size c.
Proof. by case: c => s //=; rewrite size_map. Qed.

Lemma size_ols_predict (d : design F) : size (ols_predict fit d) = nobs d.
Proof. by rewrite /ols_predict size_coefs. Qed.

Lemma size_zipmul (R : pzSemiRingType) (s t : seq R) :
  size (zipmul s t) = minn (size s) (size t).
Proof. by rewrite size_map size_zip. Qed.

(** What [smf.ols(...).fit()] returns is a least-squares fit. *)
Lemma fit_least_squares fm o (d : design F) :
  is_ols fit ->
  least_squares_fit (Results fm o d (ols_fit fit d) (ols_predict fit d)).
Proof.
move=> ols; exists (estimate fit d); split=> // fr.
exact: ols.
Qed.

Lemma run_cat p q st :
  run fit disk (p ++ q) st = (do st' <- run fit disk p st; run fit disk q st').
Proof. by elim: p st => [|s p IH] st //=; case: exec. Qed.

End RunLemmas.

(** A table with the header of [WAGE.csv] is its 24 columns, by name. *)
Ltac by_columns wage wt dk :=
  let hd := fresh "hd" in
  let rows := fresh "rows" in
  let f := fresh "f" in let ff := fresh "ff" in let lf := fresh "lf" in
  let m := fresh "m" in let mm := fresh "mm" in let lm := fresh "lm" in
  have /and5P[/eqP hd _ rows /flagP[f ff lf] /flagP[m mm lm]] := wt;
  move: hd ff mm rows wt dk;
  do 24!(case: wage => [|[? ?] wage] //= [->]);
  case: wage => //= _; case=> -> [->] rows wt dk.

(** Cell by cell: simplification stops at each lookup in [params] and at
    each set of categories, where the matching equation is used. *)
Ltac run_cells K lf lm :=
  do ?[ rewrite series_get_ols_fit //=
      | rewrite (dummy_flags K lf lm) /=
      | rewrite (treatment_female K lf) /=
      | rewrite (treatment_married K lm) /= ].

(** Every size in sight is the number of rows of the table. *)
Ltac all_rows n rows :=
  rewrite /= /nobs /= ?size_ols_predict /nobs /=;
  rewrite ?(size_map, size_zipmul, size_nseq, size_floats_of);
  move: rows => /=; do 24!(case/andP=> /eqP ?); move=> _;
  repeat match goal with H : _ = n |- _ => rewrite ?H; clear H end;
  rewrite ?minnn ?eqxx.

Section Run.

Variable F : realFieldType.
Variable fit : forall n k : nat, 'M[F]_(n, k) -> 'cV[F]_n -> 'cV[F]_k.
Variable disk : string -> option (frame F).

Local Notation run := (run fit disk).

Local Opaque ols_fit ols_predict param.

(** C5. Run on a table with the header of [WAGE.csv] and with a
    least-squares routine, the notebook fits, in this order and each on the
    loaded table [data] (object 0) or on the frame [data_in] derived from it
    (object 1): the two single-dummy models, the two models with dummies
    for the four groups (base group single men, then married women), the
    model with the interaction of the two categorical flags, and the model
    with the interaction of a categorical flag and years of education.
    The model data of each fit are the response and the regressors of its
    formula with the values they have in the loaded table, its regressors
    are named as in its summary table, and its [params] and
    [fittedvalues] are a least-squares fit of these data. *)
Theorem notebook_fits n wage :
  is_ols fit -> wage_table n wage -> disk "WAGE.csv" = Some wage ->
  exists st,
    [/\ run notebook (init F) = Some st,
        lookup (env st) "data" = Some 0%N /\ lookup (env st) "data_in" = Some 1%N,
        [seq (formula_of r, frame_of r) | r <- fitted st] =
        [:: ("wage ~ 1 + female + educ + exper + tenure", 0%N);
            ("wage ~ 1 + female", 0%N);
            ("lwage ~ 1 + marrmale + marrfem + singfem + educ + exper + expersq + tenure + tenursq", 1%N);
            ("lwage ~ 1 + marrmale + singfem + singmale + educ + exper + expersq + tenure + tenursq", 1%N);
            ("lwage ~ 1 + C(female)*C(married) + educ + exper + expersq + tenure + tenursq", 0%N);
            ("lwage ~ 1 + C(female)*educ + exper + expersq + tenure + tenursq", 0%N)]%string,
        [seq design_of r | r <- fitted st] = specifications wage /\
        [seq [seq c.1 | c <- exog (design_of r)] | r <- fitted st] =
        [:: [:: "Intercept"; "female"; "educ"; "exper"; "tenure"];
            [:: "Intercept"; "female"];
            [:: "Intercept"; "marrmale"; "marrfem"; "singfem";
                "educ"; "exper"; "expersq"; "tenure"; "tenursq"];
            [:: "Intercept"; "marrmale"; "singfem"; "singmale";
                "educ"; "exper"; "expersq"; "tenure"; "tenursq"];
            [:: "Intercept"; "C(female)[T.1]"; "C(married)[T.1]";
                "C(female)[T.1]:C(married)[T.1]";
                "educ"; "exper"; "expersq"; "tenure"; "tenursq"];
            [:: "Intercept"; "C(female)[T.1]"; "educ"; "C(female)[T.1]:educ";
                "exper"; "expersq"; "tenure"; "tenursq"]]%string &
        every (@least_squares_fit F) (fitted st)].
Proof.
move=> ols wt dk; by_columns wage wt dk.
rewrite /notebook /load_section /single_dummy_section /categories_section
        /interactions_section.
rewrite /= dk /=; run_cells F lf lm.
eexists; split; [by reflexivity | by [] | by [] | split; last by [] |].
  rewrite /= !mul_indicator /specifications /floats_at /ints_at /wage_controls.
  by rewrite /dummy_design /base_single_men /base_married_women /interacted
             /ones /gcol /floats_at /=.
by rewrite /=; do !split=> //; exact: fit_least_squares.
Qed.

(** C6. The run reads [WAGE.csv] once and touches no other file.  The
    section on multiple categories leaves the object behind [data] as it
    was loaded: [get_dummies] binds [data_in] to a new object, the four
    product columns go into that object only, and [data] denotes the
    loaded table before the section, after it, and when the notebook
    ends. *)
Theorem data_frame_untouched n wage :
  wage_table n wage -> disk "WAGE.csv" = Some wage ->
  let before := load_section ++ single_dummy_section in
  let after := before ++ categories_section in
  [/\ file_events fit disk notebook = Some [:: FileRead F "WAGE.csv"],
      frame_after fit disk before "data" = Some wage,
      frame_after fit disk after "data" = Some wage /\
      frame_after fit disk after "data_in" = grouped wage,
      objects_after fit disk after [:: "data"; "data_in"]%string =
        Some [:: Some 0%N; Some 1%N] &
      frame_after fit disk notebook "data" = Some wage].
Proof.
move=> wt dk; by_columns wage wt dk.
rewrite /file_events /frame_after /objects_after /notebook.
rewrite /load_section /single_dummy_section /categories_section
        /interactions_section /= dk /=; run_cells F lf lm.
rewrite /deref /= /grouped /make_data_in /get_dummies /=.
by rewrite (dummy_flags F lf lm).
Qed.

(** C7. No step drops or adds a row: on a table of [n] rows, [data] and
    [data_in] both have [n] rows when the notebook ends, and each of the
    regressions is fitted on [n] observations, every regressor and the
    fitted values having [n] entries. *)
Theorem same_rows_everywhere n wage :
  wage_table n wage -> disk "WAGE.csv" = Some wage ->
  exists st,
    [/\ run notebook (init F) = Some st,
        size (store st) = 2 /\ all (has_rows n) (store st),
        [seq nobs (design_of r) | r <- fitted st] = nseq 6 n &
        all (fun r => (size (fittedvalues r) == n) &&
                      all (fun c => size c.2 == n) (exog (design_of r)))
            (fitted st)].
Proof.
move=> wt dk; by_columns wage wt dk.
rewrite /notebook /load_section /single_dummy_section /categories_section
        /interactions_section /= dk /=; run_cells F lf lm.
by eexists; split; [reflexivity | all_rows n rows..].
Qed.

(** C10. With a least-squares fit, the regression of [wage] on a constant
    and the [female] flag returns group means: the intercept is the mean of
    [wage] over the rows with [female == 0], and the displayed sum of the
    intercept and the [female] coefficient is the mean of [wage] over the
    rows with [female == 1]; these are the means that [describe()] printed
    for the two subsamples. *)
Theorem dummy_regression_means n wage :
  is_ols fit -> wage_table n wage -> disk "WAGE.csv" = Some wage ->
  exists (mu_m mu_w : F) hd women men r1 (v1 : F) r2,
    [/\ subsample_mean wage "female" 0 "wage" = Some mu_m /\
        subsample_mean wage "female" 1 "wage" = Some mu_w,
        shown_after fit disk (load_section ++ single_dummy_section) =
        Some [:: OutFrame hd; OutStats women; OutStats men;
                 OutSummary r1; OutValue v1; OutSummary r2;
                 OutValue mu_w],
        formula_of r2 = "wage ~ 1 + female"%string /\
        series_get (params r2) "Intercept" = Some mu_m,
        eval (params r2) (Add (Param "Intercept") (Param "female")) =
        Some mu_w &
        stat_mean men "wage" = Some mu_m /\
        stat_mean women "wage" = Some mu_w].
Proof.
move=> ols wt dk; by_columns wage wt dk.
have/and5P[_ /andP[/= dt _] _ _ _] := wt.
match type of dt with is_true (dtype_ok (_, ?b)) =>
  move: dt rows wt dk; case: b => [?|?|w]; rewrite /dtype_ok //= => _ rows wt dk
end.
have /andP[/eqP sw /and5P[_ _ _ _ /andP[/eqP sf _]]] := rows.
have sfw : size f = size w by rewrite sf.
rewrite /shown_after /subsample_mean /load_section /single_dummy_section.
rewrite /= dk /= series_get_ols_fit //= (dummy_params ols sfw lf) /= subrKC.
do 8!eexists; split; [split; reflexivity | reflexivity | by [] | | by []].
by rewrite /= subrKC.
Qed.

(** The design of the third regression, read off the loaded table. *)
Lemma categories_design n wage :
  wage_table n wage -> disk "WAGE.csv" = Some wage ->
  omap (@design_of F) (fit_after fit disk notebook 2) =
  Some (base_single_men (floats_at wage "lwage") (ints_at wage "female")
          (ints_at wage "married") (wage_controls wage)).
Proof.
move=> wt dk; by_columns wage wt dk.
rewrite /fit_after /notebook /load_section /single_dummy_section
        /categories_section /interactions_section /= dk /=; run_cells F lf lm.
by rewrite !mul_indicator.
Qed.

(** C8. Changing the base group only reparameterises the model.  With a
    least-squares fit and a design of full column rank for the regression
    on [marrmale], [marrfem] and [singfem], the regression on [marrmale],
    [singfem] and [singmale] has the same fitted values, the same R-squared
    and the same F statistic (each a number in both summaries or in
    neither), and its [singfem] coefficient is the difference
    [params["singfem"] - params["marrfem"]] that the notebook displays
    after the first of the two fits. *)
Theorem base_group_change n wage :
  is_ols fit -> wage_table n wage -> disk "WAGE.csv" = Some wage ->
  regular (fit_after fit disk notebook 2) ->
  exists r3 r4,
    [/\ fit_after fit disk notebook 2 = Some r3 /\
        fit_after fit disk notebook 3 = Some r4,
        formula_of r3 = "lwage ~ 1 + marrmale + marrfem + singfem + educ + exper + expersq + tenure + tenursq"%string /\
        formula_of r4 = "lwage ~ 1 + marrmale + singfem + singmale + educ + exper + expersq + tenure + tenursq"%string,
        fittedvalues r4 = fittedvalues r3,
        rsquared r4 = rsquared r3 /\ fvalue r4 = fvalue r3 &
        exists2 d, series_get (params r4) "singfem" = Some d &
                   eval (params r3) (Sub (Param "singfem") (Param "marrfem")) =
                   Some d].
Proof.
move=> ols wt dk; by_columns wage wt dk.
rewrite /fit_after /notebook /load_section /single_dummy_section
        /categories_section /interactions_section /= dk /=; run_cells F lf lm.
rewrite !mul_indicator => reg.
match type of reg with
  is_true (full_col_rank (model_matrix (Design ?y0 [:: _, _, _, _ & ?ctl0]))) =>
  pose y := y0; pose ctl := ctl0
end.
have [sfy smy] : size f = size y /\ size m = size y.
  rewrite /y size_floats_of; move: rows => /=.
  by do 24!(case/andP=> /eqP ?); split; congruence.
have [rk _ _] := married_women_fit ols sfy smy lf lm reg.
have := group_fits ols sfy smy lf lm (ctl := ctl) reg.
move: rk.
rewrite /base_single_men /base_married_women /interacted /ones /gcol /y /ctl.
move=> rk [a [d0 [d1 [d2 [others [p3 p4 _ pr _]]]]]].
do 2!eexists; split.
- by split; reflexivity.
- by split; reflexivity.
- by rewrite /=; exact: pr.
- by apply: summary_eq => //; rewrite /= (eqP reg) (eqP rk).
by rewrite [params _]/= p4 [params _]/= p3 /=; eexists; reflexivity.
Qed.

(** C9. The interaction written in the formula is the manual dummy
    construction in other coordinates.  With a least-squares fit and a
    design of full column rank for the regression on the manual dummies,
    the regression on [C(female)*C(married)], fitted on the raw table, has
    the same fitted values, R-squared and F statistic (each a number in
    both summaries or in neither); its coefficient of [C(female)[T.1]] is
    the [singfem] coefficient, that of [C(married)[T.1]] is the [marrmale]
    coefficient, and the interaction coefficient is
    [marrfem - marrmale - singfem]. *)
Theorem interaction_is_manual_dummies n wage :
  is_ols fit -> wage_table n wage -> disk "WAGE.csv" = Some wage ->
  regular (fit_after fit disk notebook 2) ->
  exists r3 r5,
    [/\ fit_after fit disk notebook 2 = Some r3 /\
        fit_after fit disk notebook 4 = Some r5,
        [/\ formula_of r3 = "lwage ~ 1 + marrmale + marrfem + singfem + educ + exper + expersq + tenure + tenursq"%string,
            formula_of r5 = "lwage ~ 1 + C(female)*C(married) + educ + exper + expersq + tenure + tenursq"%string,
            frame_of r3 = 1%N & frame_of r5 = 0%N],
        fittedvalues r5 = fittedvalues r3,
        rsquared r5 = rsquared r3 /\ fvalue r5 = fvalue r3 &
        exists d0 d1 d2 : F,
          [/\ series_get (params r3) "marrmale" = Some d0,
              series_get (params r3) "marrfem" = Some d1,
              series_get (params r3) "singfem" = Some d2 &
              [/\ series_get (params r5) "C(female)[T.1]" = Some d2,
                  series_get (params r5) "C(married)[T.1]" = Some d0 &
                  series_get (params r5) "C(female)[T.1]:C(married)[T.1]" =
                  Some (d1 - d0 - d2)]]].
Proof.
move=> ols wt dk; by_columns wage wt dk.
rewrite /fit_after /notebook /load_section /single_dummy_section
        /categories_section /interactions_section /= dk /=; run_cells F lf lm.
rewrite !mul_indicator => reg.
match type of reg with
  is_true (full_col_rank (model_matrix (Design ?y0 [:: _, _, _, _ & ?ctl0]))) =>
  pose y := y0; pose ctl := ctl0
end.
have [sfy smy] : size f = size y /\ size m = size y.
  rewrite /y size_floats_of; move: rows => /=.
  by do 24!(case/andP=> /eqP ?); split; congruence.
have [rk _ _] := interacted_fit ols sfy smy lf lm reg.
have := group_fits ols sfy smy lf lm (ctl := ctl) reg.
move: rk.
rewrite /base_single_men /base_married_women /interacted /ones /gcol /y /ctl.
move=> rk [a [d0 [d1 [d2 [others [p3 _ p5 _ pr]]]]]].
do 2!eexists; split.
- by split; reflexivity.
- by split; reflexivity.
- by rewrite /=; exact: pr.
- by apply: summary_eq => //; rewrite /= (eqP reg) (eqP rk).
by exists d0, d1, d2; rewrite [params _]/= p3 [params _]/= p5 /=.
Qed.

End Run.

(* ------------------------------------------------------------------ *)
(** * The theorems at work on the small table *)
(* ------------------------------------------------------------------ *)

Section Toy.

Local Opaque ols_fit ols_predict param.

Lemma toy_table : wage_table 9 toy.
Proof. by []. Qed.

Lemma toy_levels : levels toy_f = [:: 0; 1] /\ levels toy_m = [:: 0; 1].
Proof. by []. Qed.

Lemma panel_table : wage_table 13 panel.
Proof. by []. Qed.

Lemma panel_levels : levels panel_f = [:: 0; 1] /\ levels panel_m = [:: 0; 1].
Proof. by []. Qed.

Let panel_ctl : seq (regressor rat) := wage_controls panel.

(** Rows 0, 2, 4 and 6 separate the intercept and the three group
    coefficients, rows 8 to 12 the five controls. *)
Lemma panel_rank :
  full_col_rank
    (model_matrix (base_single_men panel_lwage panel_f panel_m panel_ctl)).
Proof.
have [lf lm] := panel_levels.
have sf : size panel_f = size panel_lwage by [].
have sm : size panel_m = size panel_lwage by [].
apply: inj_full_col_rank => c Xc.
have row i := row_sm (ctl := panel_ctl) sf sm lf lm c i.
have z0 := row (Ordinal (isT : (0 < 13)%N)).
have z1 := row (Ordinal (isT : (2 < 13)%N)).
have z2 := row (Ordinal (isT : (4 < 13)%N)).
have z3 := row (Ordinal (isT : (6 < 13)%N)).
have z4 := row (Ordinal (isT : (8 < 13)%N)).
have z5 := row (Ordinal (isT : (9 < 13)%N)).
have z6 := row (Ordinal (isT : (10 < 13)%N)).
have z7 := row (Ordinal (isT : (11 < 13)%N)).
have z8 := row (Ordinal (isT : (12 < 13)%N)).
rewrite Xc mxE /lin4 /e_sm /rest /panel_ctl /wage_controls /floats_at /tail4 /=
        !big_cons big_nil /= ?(mulr0z, mulr1z, mul0r, mul1r, addr0, add0r) in z0.
rewrite Xc mxE /lin4 /e_sm /rest /panel_ctl /wage_controls /floats_at /tail4 /=
        !big_cons big_nil /= ?(mulr0z, mulr1z, mul0r, mul1r, addr0, add0r) in z1.
rewrite Xc mxE /lin4 /e_sm /rest /panel_ctl /wage_controls /floats_at /tail4 /=
        !big_cons big_nil /= ?(mulr0z, mulr1z, mul0r, mul1r, addr0, add0r) in z2.
rewrite Xc mxE /lin4 /e_sm /rest /panel_ctl /wage_controls /floats_at /tail4 /=
        !big_cons big_nil /= ?(mulr0z, mulr1z, mul0r, mul1r, addr0, add0r) in z3.
rewrite Xc mxE /lin4 /e_sm /rest /panel_ctl /wage_controls /floats_at /tail4 /=
        !big_cons big_nil /= ?(mulr0z, mulr1z, mul0r, mul1r, addr0, add0r) in z4.
rewrite Xc mxE /lin4 /e_sm /rest /panel_ctl /wage_controls /floats_at /tail4 /=
        !big_cons big_nil /= ?(mulr0z, mulr1z, mul0r, mul1r, addr0, add0r) in z5.
rewrite Xc mxE /lin4 /e_sm /rest /panel_ctl /wage_controls /floats_at /tail4 /=
        !big_cons big_nil /= ?(mulr0z, mulr1z, mul0r, mul1r, addr0, add0r) in z6.
rewrite Xc mxE /lin4 /e_sm /rest /panel_ctl /wage_controls /floats_at /tail4 /=
        !big_cons big_nil /= ?(mulr0z, mulr1z, mul0r, mul1r, addr0, add0r) in z7.
rewrite Xc mxE /lin4 /e_sm /rest /panel_ctl /wage_controls /floats_at /tail4 /=
        !big_cons big_nil /= ?(mulr0z, mulr1z, mul0r, mul1r, addr0, add0r) in z8.
rewrite -z0 ?add0r in z1 z2 z3 z4 z5 z6 z7 z8.
apply: coefs_inj; rewrite coefs0 /=.
by rewrite -z0 -z1 -z2 -z3 -z4 -z5 -z6 -z7 -z8.
Qed.

(** On the second table the design of the third regression has full column
    rank, whatever the fitting routine. *)
Lemma panel_regular fit : regular (fit_after fit panel_disk notebook 2).
Proof.
have := categories_design fit panel_table
          (erefl : panel_disk "WAGE.csv" = Some panel).
rewrite /regular; case: (fit_after _ _ _ _) => [r|] //= [->].
exact: panel_rank.
Qed.

Lemma one_hot_round_trip_witness :
  wage_table 9 toy /\
  (exists2 data_in, make_data_in toy = Some data_in &
  forall i, (i < 9)%N ->
  exists x y : int,
    [/\ at_row toy "female" i = Some x /\ at_row toy "married" i = Some y,
        at_row data_in "female_1" i = Some x /\
        at_row data_in "female_0" i = Some (1 - x),
        at_row data_in "married_1" i = Some y /\
        at_row data_in "married_0" i = Some (1 - y),
        oadd (at_row data_in "female_0" i) (at_row data_in "female_1" i) = Some 1 &
        oadd (at_row data_in "married_0" i) (at_row data_in "married_1" i) = Some 1]).
Proof. by split; [exact: toy_table | exact: (one_hot_round_trip toy_table)]. Defined.

Lemma groups_one_hot_witness :
  wage_table 9 toy /\
  (exists2 data_in, grouped toy = Some data_in &
  forall i, (i < 9)%N ->
  exists x y : int,
    at_row toy "female" i = Some x /\ at_row toy "married" i = Some y /\
    exists a b c d : int,
      [/\ [/\ at_row data_in "marrmale" i = Some a,
              at_row data_in "marrfem" i = Some b,
              at_row data_in "singfem" i = Some c &
              at_row data_in "singmale" i = Some d],
          all (fun v => v \in [:: 0; 1]) [:: a; b; c; d],
          a + b + c + d = 1,
          count (pred1 1) [:: a; b; c; d] = 1%N &
          [/\ (a == 1) = (x == 0) && (y == 1),
              (b == 1) = (x == 1) && (y == 1),
              (c == 1) = (x == 1) && (y == 0) &
              (d == 1) = (x == 0) && (y == 0)]]).
Proof. by split; [exact: toy_table | exact: (groups_one_hot toy_table)]. Defined.

Lemma notebook_fits_witness :
  [/\ is_ols (@closed_form rat), wage_table 13 panel &
      panel_disk "WAGE.csv" = Some panel] /\
  (exists st,
    [/\ run (@closed_form rat) panel_disk notebook (init rat) = Some st,
        lookup (env st) "data" = Some 0%N /\ lookup (env st) "data_in" = Some 1%N,
        [seq (formula_of r, frame_of r) | r <- fitted st] =
        [:: ("wage ~ 1 + female + educ + exper + tenure", 0%N);
            ("wage ~ 1 + female", 0%N);
            ("lwage ~ 1 + marrmale + marrfem + singfem + educ + exper + expersq + tenure + tenursq", 1%N);
            ("lwage ~ 1 + marrmale + singfem + singmale + educ + exper + expersq + tenure + tenursq", 1%N);
            ("lwage ~ 1 + C(female)*C(married) + educ + exper + expersq + tenure + tenursq", 0%N);
            ("lwage ~ 1 + C(female)*educ + exper + expersq + tenure + tenursq", 0%N)]%string,
        [seq design_of r | r <- fitted st] = specifications panel /\
        [seq [seq c.1 | c <- exog (design_of r)] | r <- fitted st] =
        [:: [:: "Intercept"; "female"; "educ"; "exper"; "tenure"];
            [:: "Intercept"; "female"];
            [:: "Intercept"; "marrmale"; "marrfem"; "singfem";
                "educ"; "exper"; "expersq"; "tenure"; "tenursq"];
            [:: "Intercept"; "marrmale"; "singfem"; "singmale";
                "educ"; "exper"; "expersq"; "tenure"; "tenursq"];
            [:: "Intercept"; "C(female)[T.1]"; "C(married)[T.1]";
                "C(female)[T.1]:C(married)[T.1]";
                "educ"; "exper"; "expersq"; "tenure"; "tenursq"];
            [:: "Intercept"; "C(female)[T.1]"; "educ"; "C(female)[T.1]:educ";
                "exper"; "expersq"; "tenure"; "tenursq"]]%string &
        every (@least_squares_fit rat) (fitted st)]).
Proof.
split; first by split; [exact: closed_form_is_ols | exact: panel_table | reflexivity].
exact: (@notebook_fits rat (@closed_form rat) panel_disk 13 panel
          (@closed_form_is_ols rat) panel_table (erefl (Some panel))).
Defined.

Lemma data_frame_untouched_witness :
  (wage_table 9 toy /\ toy_disk "WAGE.csv" = Some toy) /\
  (let before := load_section ++ single_dummy_section in
  let after := before ++ categories_section in
  [/\ file_events (@closed_form rat) toy_disk notebook = Some [:: FileRead rat "WAGE.csv"],
      frame_after (@closed_form rat) toy_disk before "data" = Some toy,
      frame_after (@closed_form rat) toy_disk after "data" = Some toy /\
      frame_after (@closed_form rat) toy_disk after "data_in" = grouped toy,
      objects_after (@closed_form rat) toy_disk after [:: "data"; "data_in"]%string =
        Some [:: Some 0%N; Some 1%N] &
      frame_after (@closed_form rat) toy_disk notebook "data" = Some toy]).
Proof.
split; first by split; [exact: toy_table | reflexivity].
exact: (@data_frame_untouched rat (@closed_form rat) toy_disk 9 toy toy_table
          (erefl (Some toy))).
Defined.

Lemma same_rows_everywhere_witness :
  (wage_table 9 toy /\ toy_disk "WAGE.csv" = Some toy) /\
  (exists st,
    [/\ run (@closed_form rat) toy_disk notebook (init rat) = Some st,
        size (store st) = 2 /\ all (has_rows 9%N) (store st),
        [seq nobs (design_of r) | r <- fitted st] = nseq 6 9%N &
        all (fun r => (size (fittedvalues r) == 9%N) &&
                      all (fun c => size c.2 == 9%N) (exog (design_of r)))
            (fitted st)]).
Proof.
split; first by split; [exact: toy_table | reflexivity].
exact: (@same_rows_everywhere rat (@closed_form rat) toy_disk 9 toy toy_table
          (erefl (Some toy))).
Defined.

Lemma dummy_regression_means_witness :
  [/\ is_ols (@closed_form rat), wage_table 9 toy &
      toy_disk "WAGE.csv" = Some toy] /\
  (exists (mu_m mu_w : rat) hd women men r1 (v1 : rat) r2,
    [/\ subsample_mean toy "female" 0 "wage" = Some mu_m /\
        subsample_mean toy "female" 1 "wage" = Some mu_w,
        shown_after (@closed_form rat) toy_disk (load_section ++ single_dummy_section) =
        Some [:: OutFrame hd; OutStats women; OutStats men;
                 OutSummary r1; OutValue v1; OutSummary r2;
                 OutValue mu_w],
        formula_of r2 = "wage ~ 1 + female"%string /\
        series_get (params r2) "Intercept" = Some mu_m,
        eval (params r2) (Add (Param "Intercept") (Param "female")) =
        Some mu_w &
        stat_mean men "wage" = Some mu_m /\
        stat_mean women "wage" = Some mu_w]).
Proof.
split; first by split; [exact: closed_form_is_ols | exact: toy_table | reflexivity].
exact: (@dummy_regression_means rat (@closed_form rat) toy_disk 9 toy
          (@closed_form_is_ols rat) toy_table (erefl (Some toy))).
Defined.

Lemma base_group_change_witness :
  [/\ is_ols (@closed_form rat), wage_table 13 panel,
      panel_disk "WAGE.csv" = Some panel &
      regular (fit_after (@closed_form rat) panel_disk notebook 2)] /\
  (exists r3 r4,
    [/\ fit_after (@closed_form rat) panel_disk notebook 2 = Some r3 /\
        fit_after (@closed_form rat) panel_disk notebook 3 = Some r4,
        formula_of r3 = "lwage ~ 1 + marrmale + marrfem + singfem + educ + exper + expersq + tenure + tenursq"%string /\
        formula_of r4 = "lwage ~ 1 + marrmale + singfem + singmale + educ + exper + expersq + tenure + tenursq"%string,
        fittedvalues r4 = fittedvalues r3,
        rsquared r4 = rsquared r3 /\ fvalue r4 = fvalue r3 &
        exists2 d, series_get (params r4) "singfem" = Some d &
                   eval (params r3) (Sub (Param "singfem") (Param "marrfem")) =
                   Some d]).
Proof.
split.
  by split; [exact: closed_form_is_ols | exact: panel_table | reflexivity
            | exact: panel_regular].
exact: (@base_group_change rat (@closed_form rat) panel_disk 13 panel
          (@closed_form_is_ols rat) panel_table (erefl (Some panel))
          (panel_regular _)).
Defined.

Lemma interaction_is_manual_dummies_witness :
  [/\ is_ols (@closed_form rat), wage_table 13 panel,
      panel_disk "WAGE.csv" = Some panel &
      regular (fit_after (@closed_form rat) panel_disk notebook 2)] /\
  (exists r3 r5,
    [/\ fit_after (@closed_form rat) panel_disk notebook 2 = Some r3 /\
        fit_after (@closed_form rat) panel_disk notebook 4 = Some r5,
        [/\ formula_of r3 = "lwage ~ 1 + marrmale + marrfem + singfem + educ + exper + expersq + tenure + tenursq"%string,
            formula_of r5 = "lwage ~ 1 + C(female)*C(married) + educ + exper + expersq + tenure + tenursq"%string,
            frame_of r3 = 1%N & frame_of r5 = 0%N],
        fittedvalues r5 = fittedvalues r3,
        rsquared r5 = rsquared r3 /\ fvalue r5 = fvalue r3 &
        exists d0 d1 d2 : rat,
          [/\ series_get (params r3) "marrmale" = Some d0,
              series_get (params r3) "marrfem" = Some d1,
              series_get (params r3) "singfem" = Some d2 &
              [/\ series_get (params r5) "C(female)[T.1]" = Some d2,
                  series_get (params r5) "C(married)[T.1]" = Some d0 &
                  series_get (params r5) "C(female)[T.1]:C(married)[T.1]" =
                  Some (d1 - d0 - d2)]]]).
Proof.
split.
  by split; [exact: closed_form_is_ols | exact: panel_table | reflexivity
            | exact: panel_regular].
exact: (@interaction_is_manual_dummies rat (@closed_form rat) panel_disk 13 panel
          (@closed_form_is_ols rat) panel_table (erefl (Some panel))
          (panel_regular _)).
Defined.

End Toy.

(* ------------------------------------------------------------------ *)
(** * Frames: shapes, assignment and inspection *)
(* ------------------------------------------------------------------ *)

Section FrameShape.

Variable F : realFieldType.
Implicit Types (df data : frame F) (c : column F) (k : string).

Lemma keys_cat df1 df2 : keys (df1 ++ df2) = keys df1 ++ keys df2.
Proof. exact: map_cat. Qed.

Lemma has_rows_cat n df1 df2 :
  has_rows n (df1 ++ df2) = has_rows n df1 && has_rows n df2.
Proof. exact: all_cat. Qed.

Lemma has_rows_kept n data : has_rows n data -> has_rows n (kept data).
Proof.
rewrite /kept; elim: data => //= x d IH /andP[hx /IH hd].
by case: ifP => //= _; rewrite hx.
Qed.

(** X1. [pd.get_dummies(data, columns=['female','married'])] on a table
    with the header of [WAGE.csv] drops the two encoded columns and
    appends the four indicator columns after the others: the result has
    the 26 columns that [data_in.head()] prints, in that order, as many
    rows as [data], no column [female] or [married], and every other
    column as it was in [data]. *)
Theorem get_dummies_shape n data :
  wage_table n data ->
  exists2 data_in, make_data_in data = Some data_in &
    [/\ keys data_in =
        [seq k <- wage_columns | k \notin [:: "female"; "married"]%string] ++
        [:: "female_0"; "female_1"; "married_0"; "married_1"]%string,
        size data_in = 26%N /\ has_rows n data_in,
        getitem data_in "female" = None /\ getitem data_in "married" = None &
        forall k, k \in wage_columns -> k \notin [:: "female"; "married"]%string ->
          getitem data_in k = getitem data k].
Proof.
move=> wt; have [f [m fc]] := wage_flags wt.
have /and5P[/eqP hd _ rows _ _] := wt.
have [_ _ _ _ [sf sm]] := fc.
rewrite (make_data_in_wage fc); eexists; first by reflexivity.
have kk := keys_kept hd.
split.
- by rewrite keys_cat kk.
- split; first by rewrite size_cat -(size_map fst) -/(keys _) kk.
  by rewrite has_rows_cat has_rows_kept //= !size_indicator sf sm !eqxx.
- by rewrite !getitem_cat !getitem_notin // kk.
move=> k kin nk; rewrite getitem_cat /kept.
rewrite (getitem_filter _ (p := fun x => x \notin [:: "female"; "married"]%string)) //.
case e: (getitem data k) => [c|] //.
by move: kin; rewrite !inE; do 23!(case/orP=> [/eqP->//|]); move/eqP->.
Qed.


Lemma getitem_in df k : k \in keys df -> exists c, getitem df k = Some c.
Proof.
elim: df => [|[k' c] df IH] //=; rewrite inE eq_sym.
by case: eqP => [_ _|_ /IH//]; exists c.
Qed.

(** X2. Each product assignment appends its column to [data_in]: after the
    first three the frame has 29 columns ending in [marrfem], [marrmale],
    [singfem] (the second printed head), after [singmale] it has 30; the
    row count stays that of the table, and the columns that were there
    before the assignments are untouched. *)
Theorem grouped_shape n data :
  wage_table n data ->
  exists d0 d1 d2,
    [/\ [/\ make_data_in data = Some d0, add_groups d0 = Some d1,
            add_singmale d1 = Some d2 & grouped data = Some d2],
        keys d1 = keys d0 ++ [:: "marrfem"; "marrmale"; "singfem"]%string /\
        keys d2 = keys d1 ++ [:: "singmale"]%string,
        size d1 = 29%N /\ size d2 = 30%N,
        has_rows n d1 /\ has_rows n d2 &
        forall k, k \in keys d0 ->
          getitem d1 k = getitem d0 k /\ getitem d2 k = getitem d0 k].
Proof.
move=> wt; have [f [m fc]] := wage_flags wt.
have /and5P[/eqP hd _ rows _ _] := wt.
have [_ _ _ _ [sf sm]] := fc.
have kk := keys_kept hd.
pose d0 := kept data ++ flag_dummies F f m.
pose d1 := kept data ++ flag_dummies F f m ++ take 3 (group_dummies F f m).
pose d2 := kept data ++ flag_dummies F f m ++ group_dummies F f m.
have e1 : add_groups d0 = Some d1.
  rewrite /add_groups /d0.
  rewrite (@assign_product_new _ _ _ _ _ _ (U8 F (indicator 1 f))
             (U8 F (indicator 1 m)) hd) //=.
  rewrite (@assign_product_new _ _ _ _ _ _ (U8 F (indicator 0 f))
             (U8 F (indicator 1 m)) hd) //=.
  rewrite (@assign_product_new _ _ _ _ _ _ (U8 F (indicator 1 f))
             (U8 F (indicator 0 m)) hd) //=.
  by rewrite !mul_indicator.
have e2 : add_singmale d1 = Some d2.
  rewrite /add_singmale /d1.
  rewrite (@assign_product_new _ _ _ _ _ _ (U8 F (indicator 0 f))
             (U8 F (indicator 0 m)) hd) //=.
  by rewrite !mul_indicator.
exists d0, d1, d2; split.
- split=> //; first exact: make_data_in_wage fc.
  exact: grouped_wage hd fc.
- by split; rewrite !keys_cat kk.
- by split; rewrite size_cat -(size_map fst) -/(keys _) kk.
- rewrite !has_rows_cat !has_rows_kept //= !size_indicator.
  by rewrite !size_group_indicator ?sf ?sm ?eqxx.
move=> k; rewrite keys_cat mem_cat !getitem_cat => /orP[] /getitem_in[c e].
  by rewrite !e.
case: (getitem (kept data) k) => [//|].
by move: e => /=; do 4!(case: eqP => // _).
Qed.

(** Assignment to a column. *)

Lemma setitem_setitem df k c c' : setitem (setitem df k c) k c' = setitem df k c'.
Proof.
elim: df => [|[k0 c0] df IH] /=; first by rewrite eqxx.
by case: (k0 =P k) => [->|/eqP nk] /=; rewrite ?eqxx ?(negPf nk) ?IH.
Qed.

Lemma keys_setitem df k c :
  keys (setitem df k c) = if k \in keys df then keys df else rcons (keys df) k.
Proof.
rewrite /keys; elim: df => [|[k0 c0] df IH] //=; rewrite inE.
case: (k0 =P k) => [->|/eqP nk] /=; first by rewrite eqxx.
by rewrite IH eq_sym (negPf nk) /=; case: ifP.
Qed.

(** X3. [df[k] = c] for a column [c] of the length of [df]: reading [k]
    back gives [c] and every other column reads as before; a new name is
    appended as the last column and an existing one keeps its place (the
    column count grows by one only for a new name); assigning twice is
    assigning the last value; and the frame keeps its number of rows. *)
Theorem setitem_laws n df k c c' k' :
  has_rows n df -> col_size c = n -> col_size c' = n ->
  [/\ getitem (setitem df k c) k' = if k' == k then Some c else getitem df k',
      keys (setitem df k c) = if k \in keys df then keys df else rcons (keys df) k,
      size (setitem df k c) = (size df + (k \notin keys df))%N,
      setitem (setitem df k c) k c' = setitem df k c' &
      has_rows n (setitem df k c) /\ has_rows n (setitem df k c')].
Proof.
move=> rows cn c'n.
split; [exact: getitem_setitem | exact: keys_setitem | | exact: setitem_setitem
       | by split; exact: has_rows_setitem].
rewrite -(size_map fst) -/(keys _) keys_setitem.
by case: ifP => _; rewrite ?size_rcons /keys size_map ?addn0 ?addn1.
Qed.

(** X4. Running a product cell a second time changes nothing: when
    [df[new] = df[a]*df[b]] has produced [df'] and [new] is neither [a]
    nor [b], the same assignment on [df'] gives [df'] again. *)
Theorem assign_product_rerun df df' new a b :
  assign_product df new a b = Some df' -> new != a -> new != b ->
  assign_product df' new a b = Some df'.
Proof.
rewrite /assign_product.
case ea: (getitem df a) => [ca|] //; case eb: (getitem df b) => [cb|] // [<-].
move=> na nb; rewrite !getitem_setitem eq_sym (negPf na) eq_sym (negPf nb) ea eb.
by rewrite setitem_setitem.
Qed.

(** X5. [df[new] = df[a]*df[b]] raises ([None]) when [a] or [b] is not a
    column of [df], and leaves no new frame. *)
Theorem assign_product_missing df new a b :
  (a \notin keys df) || (b \notin keys df) -> assign_product df new a b = None.
Proof.
rewrite /assign_product => /orP[] /getitem_notin-> //.
by case: getitem.
Qed.

Lemma size_col_mul (a b : column F) :
  col_size (col_mul a b) = minn (col_size a) (col_size b).
Proof.
by case: a => s; case: b => t /=; rewrite !size_map size_zip ?size_map.
Qed.

(** X6. The product of two [uint8] columns of zeros and ones of one
    frame (hence of one length) never wraps around: it is the plain
    product, entry by entry, again a [uint8] column of zeros and ones of
    that length. *)
Theorem col_mul_dummies (s t : seq int) :
  all (mem [:: 0; 1 : int]) s -> all (mem [:: 0; 1 : int]) t ->
  size s = size t ->
  col_mul (U8 F s) (U8 F t) = U8 F (zipmul s t) /\
  all (mem [:: 0; 1 : int]) (zipmul s t) /\
  size (zipmul s t) = size s.
Proof.
move=> hs ht st; split; last split; last by rewrite size_map size_zip st minnn.
  congr U8; rewrite /zipmul /= {st}.
  elim: s t hs ht => [|x s IH] [|y t] //= /andP[hx hs] /andP[hy ht].
  rewrite IH //; congr (_ :: _).
  by move: hx hy; rewrite !inE => /orP[] /eqP-> /orP[] /eqP->.
rewrite /zipmul {st}.
elim: s t hs ht => [|x s IH] [|y t] //= /andP[hx hs] /andP[hy ht].
rewrite IH // andbT.
by move: hx hy; rewrite !inE => /orP[] /eqP-> /orP[] /eqP->.
Qed.

End FrameShape.

Section Inspect.

Variable F : realFieldType.
Implicit Types (df : frame F) (c : column F) (k : string).


Lemma getitem_map (h : column F -> column F) df k :
  getitem [seq (x.1, h x.2) | x <- df] k = omap h (getitem df k).
Proof. by elim: df => [|[k' c] df IH] //=; case: eqP. Qed.





(** Row selection. *)

Lemma col_size_mask (b : bitseq) c :
  size b = col_size c -> col_size (col_mask b c) = count id b.
Proof. by case: c => s /= e; rewrite size_mask. Qed.

Lemma count_flag (s : seq int) :
  levels s = [:: 0; 1] ->
  (count_mem (1 : int) s + count_mem (0 : int) s)%N = size s.
Proof.
move=> ls; rewrite -(count_predC (pred1 (1 : int)) s); congr addn.
apply: eq_in_count => x /(levels_mem ls) /orP[] /eqP-> //.
Qed.

Lemma nth_mask_eq (v : int) (s : seq int) i :
  (i < count_mem v s)%N -> nth 0 (mask [seq y == v | y <- s] s) i = v.
Proof.
move=> lt; have /all_nthP h := filter_all (pred1 v) s.
rewrite -(filter_mask (pred1 v)); apply/eqP; apply: (h 0).
by rewrite size_filter.
Qed.

(** X8. The two queries on a 0/1 flag split the table: [query("k == 1")]
    and [query("k == 0")] both succeed and keep every column, their row
    counts add up to the row count of the table, and every row of either
    carries the queried value of the flag. *)
Theorem query_partition n df k :
  has_rows n df -> flag df k ->
  exists q1 q0 (n1 n0 : nat),
    [/\ query_eq df k 1 = Some q1 /\ query_eq df k 0 = Some q0,
        keys q1 = keys df /\ keys q0 = keys df,
        has_rows n1 q1 /\ has_rows n0 q0,
        (n1 + n0 = n)%N &
        (forall i, (i < n1)%N -> at_row q1 k i = Some 1) /\
        (forall i, (i < n0)%N -> at_row q0 k i = Some 0)].
Proof.
move=> rows /flagP[s ks ls].
have sn : size s = n by exact: (has_rows_getitem rows ks).
rewrite /query_eq ks /=.
exists [seq (x.1, col_mask [seq y == 1 | y <- s] x.2) | x <- df],
       [seq (x.1, col_mask [seq y == 0 | y <- s] x.2) | x <- df],
       (count_mem 1 s), (count_mem 0 s); split=> //.
- by split; rewrite /keys -map_comp.
- split; rewrite /has_rows all_map; apply: sub_all rows => x /= /eqP e;
    by rewrite col_size_mask ?size_map ?e ?sn // count_map.
- by rewrite count_flag.
by split=> i lt; rewrite /at_row getitem_map ks /= size_mask ?size_map //
  count_map lt nth_mask_eq.
Qed.

(** Column selection. *)

(** X9. [df[[c1, ..., ck]]] succeeds exactly when every listed name is a
    column of [df]; otherwise it raises. *)
Theorem select_defined df (cols : seq string) :
  isSome (select df cols) = all (fun k => k \in keys df) cols.
Proof.
elim: cols => [|k cols IH] //=.
case e: (getitem df k) => [c|].
  have -> : k \in keys df.
    by apply: contraT => /getitem_notin; rewrite e.
  by rewrite -IH; case: select.
suff -> : k \in keys df = false by [].
by apply/negP => /getitem_in[c]; rewrite e.
Qed.

(** X10. When [df[[c1, ..., ck]]] succeeds, the result has exactly the
    listed columns, in the listed order, each with the values it has in
    [df]. *)
Theorem select_columns df (cols : seq string) sub :
  select df cols = Some sub ->
  [/\ keys sub = cols, size sub = size cols &
      forall k, k \in cols -> getitem sub k = getitem df k].
Proof.
elim: cols sub => [|k0 cols IH] sub /=; first by case=> <-.
case e: (getitem df k0) => [c|] //; case er: (select df cols) => [rest|] // [<-].
have [kr sr gr] := IH _ er.
split; rewrite /= ?kr ?sr // => k; rewrite inE eq_sym.
by case: eqP => [<-|_] //=; exact: gr.
Qed.

(** [describe()]: one entry per column, each with the number of rows. *)
Lemma describe_counts n df :
  has_rows n df ->
  [seq x.1 | x <- describe df] = keys df /\
  [seq x.2.1 | x <- describe df] = nseq (size df) n.
Proof.
move=> rows; split; first by rewrite /describe -map_comp.
rewrite /describe -map_comp.
elim: df rows => [|x df IH] //= /andP[/eqP-> /IH->].
by [].
Qed.

End Inspect.

Section Categories.

Variable F : realFieldType.
Implicit Types (df : frame F) (s : seq int) (k : string).

Lemma levels_spec s :
  [/\ sorted <=%R (levels s), uniq (levels s) & levels s =i s].
Proof.
split; first exact: (sort_sorted (@le_total _ _)).
  by rewrite sort_uniq undup_uniq.
by move=> x; rewrite mem_sort mem_undup.
Qed.

(** X11. Whatever the categories of an integer column, [get_dummies] gives
    it one indicator column per category, each as long as the column, and
    every row has its 1 in exactly one of them. *)
Theorem dummies_one_hot k s i :
  (i < size s)%N ->
  [/\ size (dummy_columns F k s) = size (levels s),
      has_rows (size s) (dummy_columns F k s) &
      count (fun c : string * column F =>
               if c.2 is U8 t then nth 0 t i == 1 else false)
            (dummy_columns F k s) = 1%N].
Proof.
move=> lt; have [_ un mem] := levels_spec s.
rewrite /dummy_columns size_map; split=> //.
  by rewrite /has_rows all_map; apply/allP=> v _ /=; rewrite size_indicator.
rewrite count_map; transitivity (count_mem (nth 0 s i) (levels s)); last first.
  by rewrite count_uniq_mem // mem mem_nth.
apply: eq_count => v /=; rewrite nth_indicator // [RHS]eq_sym.
by case: (_ == v).
Qed.

(** The pooled mean is the weighted mean of the two subsample means. *)





End Categories.

(* ------------------------------------------------------------------ *)
(** * Runs: what the notebook shows *)
(* ------------------------------------------------------------------ *)

Section RunMore.

Variable F : realFieldType.
Variable fit : forall n k : nat, 'M[F]_(n, k) -> 'cV[F]_n -> 'cV[F]_k.
Variable disk : string -> option (frame F).

Local Notation run := (run fit disk).

Local Opaque ols_fit ols_predict param.

(** X18. The outputs of the whole notebook, in order: the head of [data];
    the two [describe()] tables; the summary of the first fit and the
    displayed [params["female"]] of that fit; the summary of the second
    fit and the displayed [Intercept + female] of that fit; the head of
    [data_in] after [get_dummies] and its head after the first three
    products; the summary of the third fit and the displayed [singfem -
    marrfem] of that fit; the summaries of the fourth, fifth and sixth
    fits. [model_est] ends as the sixth fit. *)
Theorem notebook_outputs n wage :
  wage_table n wage -> disk "WAGE.csv" = Some wage ->
  exists st women men d0 d1, exists r1 r2 r3 r4 r5 r6, exists v1 v2 v3 : F,
    [/\ run notebook (init F) = Some st,
        fitted st = [:: r1; r2; r3; r4; r5; r6] /\ model_est st = Some r6,
        shown_after fit disk notebook =
        Some [:: OutFrame (head wage); OutStats women; OutStats men;
                 OutSummary r1; OutValue v1; OutSummary r2; OutValue v2;
                 OutFrame (head d0); OutFrame (head d1);
                 OutSummary r3; OutValue v3; OutSummary r4;
                 OutSummary r5; OutSummary r6],
        [/\ series_get (params r1) "female" = Some v1,
            eval (params r2) (Add (Param "Intercept") (Param "female")) = Some v2 &
            eval (params r3) (Sub (Param "singfem") (Param "marrfem")) = Some v3] &
        make_data_in wage = Some d0 /\ add_groups d0 = Some d1].
Proof.
move=> wt dk; by_columns wage wt dk.
rewrite /shown_after /notebook /load_section /single_dummy_section
        /categories_section /interactions_section.
rewrite /make_data_in /get_dummies /add_groups /assign_product.
rewrite /= dk /=; run_cells F lf lm.
do 14!eexists; split; last by split; reflexivity.
- reflexivity.
- by split; reflexivity.
- reflexivity.
by split; rewrite /= ?series_get_ols_fit.
Qed.

End RunMore.

(* ------------------------------------------------------------------ *)
(** * Fits: residuals, explained variance and slopes *)
(* ------------------------------------------------------------------ *)

Section FitFacts.

Variable F : realFieldType.
Variable fit : forall n k : nat, 'M[F]_(n, k) -> 'cV[F]_n -> 'cV[F]_k.

Implicit Types (d : design F) (cols : seq (regressor F)).

Lemma nth_coefs k (b : 'cV[F]_k) (i : 'I_k) : nth 0 (coefs b) i = b i 0.
Proof.
elim: k b i => [|k IH] b i; first by case: i.
case: i => [[|i] lt] /=.
  by rewrite mxE; congr (b _ _); apply: val_inj.
have lt' : (i < k)%N by [].
rewrite (IH (dsubmx (b : 'cV_(1 + k))) (Ordinal lt')) mxE.
by congr (b _ _); apply: val_inj.
Qed.

Lemma sum_nth n (s : seq F) :
  size s = n -> \sum_(i < n) nth 0 s i = \sum_(x <- s) x.
Proof. by move=> <-; rewrite [RHS](big_nth 0) big_mkord. Qed.

Lemma sum_nth_map n (g : F -> F) (s : seq F) :
  size s = n -> \sum_(i < n) g (nth 0 s i) = \sum_(x <- s) g x.
Proof. by move=> <-; rewrite [RHS](big_nth 0) big_mkord. Qed.

(** The converse of [design_mx_tr_mul]. *)
Lemma design_mx_tr_mul0 n cols (r : 'cV[F]_n) c :
  (design_mx n cols)^T *m r = 0 -> c \in cols -> dot (col_vec n c.2) r = 0.
Proof.
elim: cols => [|c0 cols IH] //=.
rewrite (tr_row_mx (col_vec n c0.2) (design_mx n cols)).
rewrite (mul_col_mx (col_vec n c0.2)^T (design_mx n cols)^T r).
move=> e.
have [e0 /IH er] : (col_vec n c0.2)^T *m r = 0 /\ (design_mx n cols)^T *m r = 0.
  by apply: eq_col_mx; rewrite col_mx0; exact: e.
rewrite inE => /orP[/eqP->|//].
by rewrite dotE e0 mxE.
Qed.

Section OneFit.

Variable d : design F.
Hypothesis ols : is_ols fit.
Hypothesis full_rank : full_col_rank (model_matrix d).

Let n := nobs d.
Let X := model_matrix d.
Let y := col_vec n (endog d).
Let b := estimate fit d.
Let u : 'cV[F]_n := y - X *m b.

Lemma fit_normal : X^T *m u = 0.
Proof. exact: (least_squares_normal (ols y full_rank)). Qed.

Lemma residual_row (i : 'I_n) :
  u i 0 = nth 0 (endog d) i - nth 0 (ols_predict fit d) i.
Proof.
by rewrite /ols_predict nth_coefs /u [LHS]mxE [y _ _]mxE [X in _ + X]mxE.
Qed.

Lemma residuals_orthogonal_in c :
  c \in exog d ->
  \sum_(i < nobs d)
     nth 0 c.2 i * (nth 0 (endog d) i - nth 0 (ols_predict fit d) i) = 0.
Proof.
move=> /(design_mx_tr_mul0 fit_normal); rewrite /dot => e.
by rewrite -[RHS]e; apply: eq_bigr => i _; rewrite col_vecE residual_row.
Qed.


(** With a constant among the regressors. *)
Hypothesis constant : ("Intercept"%string, nseq n 1) \in exog d.

Let yhat := ols_predict fit d.
Let ybar := mean (endog d).

Lemma residual_sum : \sum_(i < n) u i 0 = 0.
Proof.
rewrite -[RHS](residuals_orthogonal_in constant); apply: eq_bigr => i _.
by rewrite residual_row /= nth_nseq ltn_ord mul1r.
Qed.

Lemma residual_fitted : \sum_(i < n) u i 0 * nth 0 yhat i = 0.
Proof.
have e : dot u (X *m b) = 0 by rewrite dot_adjoint fit_normal dot0l.
by rewrite -[RHS]e /dot; apply: eq_bigr => i _; rewrite /yhat /ols_predict nth_coefs.
Qed.

Lemma mean_fitted : mean yhat = ybar.
Proof.
rewrite /ybar /mean /yhat size_ols_predict; congr (_ / _).
rewrite -(sum_nth (size_ols_predict fit d)) -(sum_nth (erefl (nobs d))).
have := residual_sum; under eq_bigr do rewrite residual_row.
by rewrite sumrB => /eqP; rewrite subr_eq0 => /eqP->.
Qed.

Definition explained : F := \sum_(x <- yhat) (x - ybar) ^+ 2.

Let res := Results EmptyString 0 d (ols_fit fit d) yhat.

Lemma ssr_of_rows : ssr_of res = \sum_(i < n) (u i 0) ^+ 2.
Proof.
rewrite /ssr_of /= (big_nth (0, 0)) size_zip size_ols_predict minnn big_mkord.
apply: eq_bigr => i _; rewrite nth_zip ?size_ols_predict //=.
by rewrite residual_row.
Qed.

Lemma square_split (a c t : F) :
  (a - t) ^+ 2 = (a - c) ^+ 2 + (a - c) * (c - t) *+ 2 + (c - t) ^+ 2.
Proof. by rewrite -sqrrD addrA subrK. Qed.

Lemma variance_split : centered_tss res = ssr_of res + explained.
Proof.
rewrite ssr_of_rows /centered_tss /explained /= -/ybar.
rewrite -(sum_nth_map (fun x => (x - ybar) ^+ 2) (erefl : size (endog d) = n)).
rewrite -(sum_nth_map (fun x => (x - ybar) ^+ 2)
           (size_ols_predict fit d : size yhat = n)).
have cross : \sum_(i < n) u i 0 * (nth 0 yhat i - ybar) = 0.
  under eq_bigr do rewrite mulrBr.
  by rewrite sumrB residual_fitted -mulr_suml residual_sum mul0r subrr.
rewrite -big_split /=.
transitivity (\sum_(i < n) (u i 0 ^+ 2 + (nth 0 yhat i - ybar) ^+ 2) +
              (\sum_(i < n) u i 0 * (nth 0 yhat i - ybar)) *+ 2); last first.
  by rewrite cross mul0rn addr0.
rewrite -sumrMnl -big_split /=; apply: eq_bigr => i _.
by rewrite (square_split _ (nth 0 yhat i)) -residual_row addrAC.
Qed.

Lemma rsquared_unit :
  if rsquared res is Some v then 0 <= v <= 1 else centered_tss res == 0.
Proof.
have s0 : 0 <= ssr_of res by apply: sumr_ge0 => p _; exact: sqr_ge0.
have e0 : 0 <= explained by apply: sumr_ge0 => p _; exact: sqr_ge0.
have t0 : 0 <= centered_tss res by apply: sumr_ge0 => p _; exact: sqr_ge0.
rewrite /rsquared /quot; case: ifPn => [//|nz] /=.
rewrite subr_ge0 lerBlDr lerDl divr_ge0 // andbT.
by rewrite ler_pdivrMr ?lt0r ?nz // mul1r variance_split lerDl.
Qed.

End OneFit.

(** X19. With a least-squares fit on a design of full column rank, the
    residuals are orthogonal to every regressor: the products of a
    regressor with the residuals sum to zero over the observations. *)
Theorem residuals_orthogonal d c :
  is_ols fit -> full_col_rank (model_matrix d) -> c \in exog d ->
  \sum_(i < nobs d)
     nth 0 c.2 i * (nth 0 (endog d) i - nth 0 (ols_predict fit d) i) = 0.
Proof. by move=> ols fr; exact: residuals_orthogonal_in. Qed.

(** X20. In exact arithmetic, a least-squares fit on a design of full
    column rank returns as [params] the solution [(X^T X)^-1 X^T y] of the
    normal equations, and the estimate satisfies the normal equations. *)
Theorem fit_is_closed_form d :
  is_ols fit -> full_col_rank (model_matrix d) ->
  ols_fit fit d =
  zip [seq c.1 | c <- exog d]
      (coefs (closed_form (model_matrix d) (col_vec (nobs d) (endog d)))) /\
  normal_equations (model_matrix d) (col_vec (nobs d) (endog d))
                   (estimate fit d).
Proof.
move=> ols fr; split; last exact: (least_squares_normal (ols _ _ _ _ fr)).
by rewrite /ols_fit /estimate (is_ols_closed_form _ ols fr).
Qed.

(** X21. The estimates do not depend on the least-squares routine: two
    routines that both minimise the sum of squared residuals return the
    same [params] and the same fitted values on a design of full column
    rank. *)
Theorem routine_independent (fit' : forall n k, 'M[F]_(n, k) -> 'cV[F]_n -> 'cV[F]_k) d :
  is_ols fit -> is_ols fit' -> full_col_rank (model_matrix d) ->
  ols_fit fit d = ols_fit fit' d /\ ols_predict fit d = ols_predict fit' d.
Proof.
move=> ols ols' fr; rewrite /ols_fit /ols_predict /estimate.
by rewrite (is_ols_closed_form _ ols fr) (is_ols_closed_form _ ols' fr).
Qed.

(** X22. With a constant among the regressors, the residuals of a
    least-squares fit sum to zero, and the mean of the fitted values is
    the mean of the response. *)
Theorem residuals_sum_zero d :
  is_ols fit -> full_col_rank (model_matrix d) ->
  ("Intercept"%string, nseq (nobs d) 1) \in exog d ->
  \sum_(i < nobs d) (nth 0 (endog d) i - nth 0 (ols_predict fit d) i) = 0 /\
  mean (ols_predict fit d) = mean (endog d).
Proof.
move=> ols fr ic; split; last exact: mean_fitted.
rewrite -[RHS](residual_sum ols fr ic).
by apply: eq_bigr => i _; rewrite residual_row.
Qed.

(** X23. With a constant among the regressors, the total sum of squares of
    a least-squares fit is the sum of squared residuals plus the explained
    sum of squares. *)
Theorem variance_decomposition d fm o :
  is_ols fit -> full_col_rank (model_matrix d) ->
  ("Intercept"%string, nseq (nobs d) 1) \in exog d ->
  let r := Results fm o d (ols_fit fit d) (ols_predict fit d) in
  centered_tss r =
  ssr_of r + \sum_(x <- fittedvalues r) (x - mean (endog d)) ^+ 2.
Proof. by move=> ols fr ic; exact: variance_split. Qed.

Lemma rsquared_bounds d fm o :
  is_ols fit -> full_col_rank (model_matrix d) ->
  ("Intercept"%string, nseq (nobs d) 1) \in exog d ->
  let r := Results fm o d (ols_fit fit d) (ols_predict fit d) in
  if rsquared r is Some v then 0 <= v <= 1 else centered_tss r == 0.
Proof. by move=> ols fr ic; exact: rsquared_unit. Qed.

End FitFacts.

Section Prediction.

Variable F : realFieldType.
Variable fit : forall n k : nat, 'M[F]_(n, k) -> 'cV[F]_n -> 'cV[F]_k.




End Prediction.

Section RunSlopes.

Variable F : realFieldType.
Variable fit : forall n k : nat, 'M[F]_(n, k) -> 'cV[F]_n -> 'cV[F]_k.
Variable disk : string -> option (frame F).

Local Notation run := (run fit disk).

Local Opaque ols_fit ols_predict param.



End RunSlopes.

Section RunTables.

Variable F : realFieldType.
Variable fit : forall n k : nat, 'M[F]_(n, k) -> 'cV[F]_n -> 'cV[F]_k.
Variable disk : string -> option (frame F).

Local Notation run := (run fit disk).

Local Opaque ols_fit ols_predict param.

(** X25. The first cells show the head of [data] and two [describe()]
    tables, each with the columns [wage], [educ], [exper], [tenure] in
    this order and one count for all four; the count of the first is the
    number of rows with [female == 1], that of the second the number with
    [female == 0], and the two counts add up to the number of rows of the
    table (252 + 274 = 526 in the printed tables). *)
Theorem subsample_tables n wage :
  wage_table n wage -> disk "WAGE.csv" = Some wage ->
  exists women men (nw nm : nat),
    [/\ shown_after fit disk load_section =
        Some [:: OutFrame (head wage); OutStats women; OutStats men],
        [seq x.1 | x <- women] = [:: "wage"; "educ"; "exper"; "tenure"]%string /\
        [seq x.1 | x <- men] = [:: "wage"; "educ"; "exper"; "tenure"]%string,
        [seq x.2.1 | x <- women] = nseq 4 nw /\
        [seq x.2.1 | x <- men] = nseq 4 nm,
        nw = count_mem 1 (ints_at wage "female") /\
        nm = count_mem 0 (ints_at wage "female") &
        (nw + nm)%N = n].
Proof.
move=> wt dk; by_columns wage wt dk.
rewrite /shown_after /load_section /= dk /= /ints_at /=.
have sizes := rows; move: sizes => /=; do 24!(case/andP=> /eqP ?); move=> _.
do 2!eexists; exists (count_mem 1 f), (count_mem 0 f).
split; [reflexivity | by [] | | by [] | by rewrite count_flag].
by rewrite /= !col_size_mask ?size_map ?count_map //; congruence.
Qed.

(** X27. The last section does not depend on the sections between it and
    the loading of the data: run right after the load section, its two
    regressions are the fifth and the sixth regression of the whole
    notebook (same formula, frame, design, estimates and fitted values). *)
Theorem interactions_stand_alone n wage :
  wage_table n wage -> disk "WAGE.csv" = Some wage ->
  fit_after fit disk (load_section ++ interactions_section) 0 =
  fit_after fit disk notebook 4 /\
  fit_after fit disk (load_section ++ interactions_section) 1 =
  fit_after fit disk notebook 5.
Proof.
move=> wt dk; by_columns wage wt dk.
by rewrite /fit_after /notebook /load_section /single_dummy_section
          /categories_section /interactions_section /= dk /=; run_cells F lf lm.
Qed.

(** X28. In exact arithmetic and with a least-squares fit, every
    regression of the notebook whose design has full column rank has an
    R-squared ([1 - SSR/SST]) between 0 and 1, unless its response is
    constant ([SST = 0]), where R-squared is not a number: each of the six
    formulas has the constant [1]. *)
Theorem notebook_rsquared n wage :
  is_ols fit -> wage_table n wage -> disk "WAGE.csv" = Some wage ->
  exists2 st, run notebook (init F) = Some st &
    all (fun r => full_col_rank (model_matrix (design_of r)) ==>
                  (if rsquared r is Some v then 0 <= v <= 1
                   else centered_tss r == 0))
        (fitted st).
Proof.
move=> ols wt dk; by_columns wage wt dk.
rewrite /notebook /load_section /single_dummy_section /categories_section
        /interactions_section /= dk /=; run_cells F lf lm.
eexists; first by reflexivity.
set P := (fun r => _); rewrite /= /P andbT.
by do ![apply/andP; split]; apply/implyP=> fr;
   apply: (rsquared_bounds _ _ ols fr); exact: mem_head.
Qed.

End RunTables.

(* ------------------------------------------------------------------ *)
(** * These properties at work on small tables *)
(* ------------------------------------------------------------------ *)

Section MoreToy.

Local Opaque ols_fit ols_predict param.

(** A frame of two dummies, three rows, and the product column added to it. *)
Definition toy_in : frame rat :=
  [:: ("female_1"%string, U8 rat [:: 1; 0; 1]);
      ("married_1"%string, U8 rat [:: 1; 1; 0])].

Definition toy_marrfem : frame rat :=
  setitem toy_in "marrfem" (U8 rat [:: 1; 0; 0]).

(** A second least-squares routine: the closed form where the model matrix
    has full column rank, zero elsewhere. *)
Definition guarded_form (n k : nat) (X : 'M[rat]_(n, k)) (y : 'cV[rat]_n) :
    'cV[rat]_k :=
  if full_col_rank X then closed_form X y else 0.

Lemma guarded_form_is_ols : is_ols guarded_form.
Proof.
move=> n k X y fr; rewrite /guarded_form fr.
exact: closed_form_is_ols.
Qed.

(** The design of [wage ~ 1 + female] on the small table. *)
Definition toy_design : design rat := dummy_design toy_wage toy_f.

Lemma toy_design_rank : full_col_rank (model_matrix toy_design).
Proof. by apply: dummy_design_rank; case: toy_levels. Qed.

Lemma toy_constant :
  ("Intercept"%string, nseq (nobs toy_design) 1) \in exog toy_design.
Proof. exact: mem_head. Qed.

Lemma setitem_laws_witness :
  [/\ has_rows 3 toy_in, col_size (U8 rat [:: 1; 0; 0]) = 3%N &
      col_size (U8 rat [:: 0; 0; 1]) = 3%N] /\
  [/\ getitem (setitem toy_in "marrfem" (U8 rat [:: 1; 0; 0])) "female_1" =
      if "female_1"%string == "marrfem"%string then Some (U8 rat [:: 1; 0; 0])
      else getitem toy_in "female_1",
      keys (setitem toy_in "marrfem" (U8 rat [:: 1; 0; 0])) =
      if "marrfem"%string \in keys toy_in then keys toy_in
      else rcons (keys toy_in) "marrfem"%string,
      size (setitem toy_in "marrfem" (U8 rat [:: 1; 0; 0])) =
      (size toy_in + ("marrfem"%string \notin keys toy_in))%N,
      setitem (setitem toy_in "marrfem" (U8 rat [:: 1; 0; 0])) "marrfem"
        (U8 rat [:: 0; 0; 1]) =
      setitem toy_in "marrfem" (U8 rat [:: 0; 0; 1]) &
      has_rows 3 (setitem toy_in "marrfem" (U8 rat [:: 1; 0; 0])) /\
      has_rows 3 (setitem toy_in "marrfem" (U8 rat [:: 0; 0; 1]))].
Proof.
have rows : has_rows 3 toy_in by [].
have cn : col_size (U8 rat [:: 1; 0; 0]) = 3%N by [].
have c'n : col_size (U8 rat [:: 0; 0; 1]) = 3%N by [].
by split; [split | exact: (setitem_laws "marrfem" "female_1" rows cn c'n)].
Defined.

Lemma col_mul_dummies_witness :
  [/\ all (mem [:: 0; 1 : int]) [:: 1; 0; 1], all (mem [:: 0; 1 : int]) [:: 1; 1; 0] &
      size [:: 1; 0; 1 : int] = size [:: 1; 1; 0 : int]] /\
  (col_mul (U8 rat [:: 1; 0; 1]) (U8 rat [:: 1; 1; 0]) =
   U8 rat (zipmul [:: 1; 0; 1] [:: 1; 1; 0]) /\
   all (mem [:: 0; 1 : int]) (zipmul [:: 1; 0; 1] [:: 1; 1; 0]) /\
   size (zipmul [:: 1; 0; 1 : int] [:: 1; 1; 0]) = size [:: 1; 0; 1 : int]).
Proof.
have hs : all (mem [:: 0; 1 : int]) [:: 1; 0; 1] by [].
have ht : all (mem [:: 0; 1 : int]) [:: 1; 1; 0] by [].
have st : size [:: 1; 0; 1 : int] = size [:: 1; 1; 0 : int] by [].
by split; [split | exact: (col_mul_dummies rat hs ht st)].
Defined.


Lemma assign_product_rerun_witness :
  [/\ assign_product toy_in "marrfem" "female_1" "married_1" = Some toy_marrfem,
      "marrfem"%string != "female_1"%string &
      "marrfem"%string != "married_1"%string] /\
  assign_product toy_marrfem "marrfem" "female_1" "married_1" = Some toy_marrfem.
Proof.
have e : assign_product toy_in "marrfem" "female_1" "married_1" = Some toy_marrfem.
  by [].
have na : "marrfem"%string != "female_1"%string by [].
have nb : "marrfem"%string != "married_1"%string by [].
by split; [split | exact: (assign_product_rerun e na nb)].
Defined.

Lemma assign_product_missing_witness :
  ("female_0"%string \notin keys toy_in) || ("married_1"%string \notin keys toy_in) /\
  assign_product toy_in "marrmale" "female_0" "married_1" = None.
Proof.
have h : ("female_0"%string \notin keys toy_in) ||
         ("married_1"%string \notin keys toy_in) by [].
by split; [| exact: (assign_product_missing "marrmale" h)].
Defined.

Lemma select_columns_witness :
  select toy_in [:: "married_1"; "female_1"]%string =
  Some [:: ("married_1"%string, U8 rat [:: 1; 1; 0]);
           ("female_1"%string, U8 rat [:: 1; 0; 1])] /\
  [/\ keys [:: ("married_1"%string, U8 rat [:: 1; 1; 0]);
               ("female_1"%string, U8 rat [:: 1; 0; 1])] =
      [:: "married_1"; "female_1"]%string,
      size [:: ("married_1"%string, U8 rat [:: 1; 1; 0]);
               ("female_1"%string, U8 rat [:: 1; 0; 1])] =
      size [:: "married_1"; "female_1"]%string &
      forall k, k \in [:: "married_1"; "female_1"]%string ->
        getitem [:: ("married_1"%string, U8 rat [:: 1; 1; 0]);
                    ("female_1"%string, U8 rat [:: 1; 0; 1])] k =
        getitem toy_in k].
Proof.
have e : select toy_in [:: "married_1"; "female_1"]%string =
         Some [:: ("married_1"%string, U8 rat [:: 1; 1; 0]);
                  ("female_1"%string, U8 rat [:: 1; 0; 1])] by [].
by split; [| exact: (select_columns e)].
Defined.

Lemma dummies_one_hot_witness :
  (2 < size toy_f)%N /\
  [/\ size (dummy_columns rat "female" toy_f) = size (levels toy_f),
      has_rows (size toy_f) (dummy_columns rat "female" toy_f) &
      count (fun c : string * column rat =>
               if c.2 is U8 t then nth 0 t 2 == 1 else false)
            (dummy_columns rat "female" toy_f) = 1%N].
Proof.
have lt : (2 < size toy_f)%N by [].
by split; [| exact: (dummies_one_hot rat "female" lt)].
Defined.

Lemma residuals_orthogonal_witness :
  [/\ is_ols (@closed_form rat), full_col_rank (model_matrix toy_design) &
      ("Intercept"%string, nseq (nobs toy_design) 1) \in exog toy_design] /\
  \sum_(i < nobs toy_design)
     nth 0 ("Intercept"%string, nseq (nobs toy_design) (1 : rat)).2 i *
     (nth 0 (endog toy_design) i -
      nth 0 (ols_predict (@closed_form rat) toy_design) i) = 0.
Proof.
split.
  by split; [exact: closed_form_is_ols | exact: toy_design_rank
            | exact: toy_constant].
exact: (residuals_orthogonal (@closed_form_is_ols rat) toy_design_rank
          toy_constant).
Defined.

Lemma fit_is_closed_form_witness :
  (is_ols (@closed_form rat) /\ full_col_rank (model_matrix toy_design)) /\
  (ols_fit (@closed_form rat) toy_design =
   zip [seq c.1 | c <- exog toy_design]
       (coefs (closed_form (model_matrix toy_design)
                 (col_vec (nobs toy_design) (endog toy_design)))) /\
   normal_equations (model_matrix toy_design)
     (col_vec (nobs toy_design) (endog toy_design))
     (estimate (@closed_form rat) toy_design)).
Proof.
split; first by split; [exact: closed_form_is_ols | exact: toy_design_rank].
exact: (fit_is_closed_form (@closed_form_is_ols rat) toy_design_rank).
Defined.

Lemma routine_independent_witness :
  [/\ is_ols (@closed_form rat), is_ols guarded_form &
      full_col_rank (model_matrix toy_design)] /\
  (ols_fit (@closed_form rat) toy_design = ols_fit guarded_form toy_design /\
   ols_predict (@closed_form rat) toy_design = ols_predict guarded_form toy_design).
Proof.
split.
  by split; [exact: closed_form_is_ols | exact: guarded_form_is_ols
            | exact: toy_design_rank].
exact: (routine_independent (@closed_form_is_ols rat) guarded_form_is_ols
          toy_design_rank).
Defined.

Lemma residuals_sum_zero_witness :
  [/\ is_ols (@closed_form rat), full_col_rank (model_matrix toy_design) &
      ("Intercept"%string, nseq (nobs toy_design) 1) \in exog toy_design] /\
  (\sum_(i < nobs toy_design)
      (nth 0 (endog toy_design) i -
       nth 0 (ols_predict (@closed_form rat) toy_design) i) = 0 /\
   mean (ols_predict (@closed_form rat) toy_design) = mean (endog toy_design)).
Proof.
split.
  by split; [exact: closed_form_is_ols | exact: toy_design_rank
            | exact: toy_constant].
exact: (residuals_sum_zero (@closed_form_is_ols rat) toy_design_rank
          toy_constant).
Defined.

Lemma variance_decomposition_witness :
  [/\ is_ols (@closed_form rat), full_col_rank (model_matrix toy_design) &
      ("Intercept"%string, nseq (nobs toy_design) 1) \in exog toy_design] /\
  (let r := Results "wage ~ 1 + female" 0 toy_design
              (ols_fit (@closed_form rat) toy_design)
              (ols_predict (@closed_form rat) toy_design) in
   centered_tss r =
   ssr_of r + \sum_(x <- fittedvalues r) (x - mean (endog toy_design)) ^+ 2).
Proof.
split.
  by split; [exact: closed_form_is_ols | exact: toy_design_rank
            | exact: toy_constant].
exact: (variance_decomposition "wage ~ 1 + female" 0
          (@closed_form_is_ols rat) toy_design_rank toy_constant).
Defined.

Lemma get_dummies_shape_witness :
  wage_table 9 toy /\
  (exists2 data_in, make_data_in toy = Some data_in &
    [/\ keys data_in =
        [seq k <- wage_columns | k \notin [:: "female"; "married"]%string] ++
        [:: "female_0"; "female_1"; "married_0"; "married_1"]%string,
        size data_in = 26%N /\ has_rows 9%N data_in,
        getitem data_in "female" = None /\ getitem data_in "married" = None &
        forall k, k \in wage_columns -> k \notin [:: "female"; "married"]%string ->
          getitem data_in k = getitem toy k]).
Proof. by split; [exact: toy_table | exact: (get_dummies_shape toy_table)]. Defined.

Lemma grouped_shape_witness :
  wage_table 9 toy /\
  (exists d0 d1 d2,
    [/\ [/\ make_data_in toy = Some d0, add_groups d0 = Some d1,
            add_singmale d1 = Some d2 & grouped toy = Some d2],
        keys d1 = keys d0 ++ [:: "marrfem"; "marrmale"; "singfem"]%string /\
        keys d2 = keys d1 ++ [:: "singmale"]%string,
        size d1 = 29%N /\ size d2 = 30%N,
        has_rows 9%N d1 /\ has_rows 9%N d2 &
        forall k, k \in keys d0 ->
          getitem d1 k = getitem d0 k /\ getitem d2 k = getitem d0 k]).
Proof. by split; [exact: toy_table | exact: (grouped_shape toy_table)]. Defined.

Lemma notebook_outputs_witness :
  (wage_table 9 toy /\ toy_disk "WAGE.csv" = Some toy) /\
  (exists st women men d0 d1, exists r1 r2 r3 r4 r5 r6, exists v1 v2 v3 : rat,
    [/\ run (@closed_form rat) toy_disk notebook (init rat) = Some st,
        fitted st = [:: r1; r2; r3; r4; r5; r6] /\ model_est st = Some r6,
        shown_after (@closed_form rat) toy_disk notebook =
        Some [:: OutFrame (head toy); OutStats women; OutStats men;
                 OutSummary r1; OutValue v1; OutSummary r2; OutValue v2;
                 OutFrame (head d0); OutFrame (head d1);
                 OutSummary r3; OutValue v3; OutSummary r4;
                 OutSummary r5; OutSummary r6],
        [/\ series_get (params r1) "female" = Some v1,
            eval (params r2) (Add (Param "Intercept") (Param "female")) = Some v2 &
            eval (params r3) (Sub (Param "singfem") (Param "marrfem")) = Some v3] &
        make_data_in toy = Some d0 /\ add_groups d0 = Some d1]).
Proof.
split; first by split; [exact: toy_table | reflexivity].
exact: (@notebook_outputs rat (@closed_form rat) toy_disk 9 toy toy_table
          (erefl (Some toy))).
Defined.


Lemma subsample_tables_witness :
  (wage_table 9 toy /\ toy_disk "WAGE.csv" = Some toy) /\
  (exists women men (nw nm : nat),
    [/\ shown_after (@closed_form rat) toy_disk load_section =
        Some [:: OutFrame (head toy); OutStats women; OutStats men],
        [seq x.1 | x <- women] = [:: "wage"; "educ"; "exper"; "tenure"]%string /\
        [seq x.1 | x <- men] = [:: "wage"; "educ"; "exper"; "tenure"]%string,
        [seq x.2.1 | x <- women] = nseq 4 nw /\
        [seq x.2.1 | x <- men] = nseq 4 nm,
        nw = count_mem 1 (ints_at toy "female") /\
        nm = count_mem 0 (ints_at toy "female") &
        (nw + nm)%N = 9%N]).
Proof.
split; first by split; [exact: toy_table | reflexivity].
exact: (@subsample_tables rat (@closed_form rat) toy_disk 9 toy toy_table
          (erefl (Some toy))).
Defined.

Lemma interactions_stand_alone_witness :
  (wage_table 9 toy /\ toy_disk "WAGE.csv" = Some toy) /\
  (fit_after (@closed_form rat) toy_disk (load_section ++ interactions_section) 0 =
  fit_after (@closed_form rat) toy_disk notebook 4 /\
  fit_after (@closed_form rat) toy_disk (load_section ++ interactions_section) 1 =
  fit_after (@closed_form rat) toy_disk notebook 5).
Proof.
split; first by split; [exact: toy_table | reflexivity].
exact: (@interactions_stand_alone rat (@closed_form rat) toy_disk 9 toy toy_table
          (erefl (Some toy))).
Defined.

Lemma notebook_rsquared_witness :
  [/\ is_ols (@closed_form rat), wage_table 13 panel &
      panel_disk "WAGE.csv" = Some panel] /\
  (exists2 st, run (@closed_form rat) panel_disk notebook (init rat) = Some st &
    all (fun r => full_col_rank (model_matrix (design_of r)) ==>
                  (if rsquared r is Some v then 0 <= v <= 1
                   else centered_tss r == 0))
        (fitted st)).
Proof.
split; first by split; [exact: closed_form_is_ols | exact: panel_table | reflexivity].
exact: (@notebook_rsquared rat (@closed_form rat) panel_disk 13 panel
          (@closed_form_is_ols rat) panel_table (erefl (Some panel))).
Defined.

Lemma query_partition_witness :
  (has_rows 9 toy /\ flag toy "female") /\
  (exists q1 q0 (n1 n0 : nat),
    [/\ query_eq toy "female"%string 1 = Some q1 /\ query_eq toy "female"%string 0 = Some q0,
        keys q1 = keys toy /\ keys q0 = keys toy,
        has_rows n1 q1 /\ has_rows n0 q0,
        (n1 + n0 = 9%N)%N &
        (forall i, (i < n1)%N -> at_row q1 "female"%string i = Some 1) /\
        (forall i, (i < n0)%N -> at_row q0 "female"%string i = Some 0)]).
Proof.
have rows : has_rows 9 toy by [].
have fl : flag toy "female" by [].
by split; [split | exact: (query_partition rows fl)].
Defined.


End MoreToy.

(* ------------------------------------------------------------------ *)
(** * The second table worked out *)
(* ------------------------------------------------------------------ *)

Section PanelFit.

(** The controls of the second table. *)
Let panel_ctl : seq (regressor rat) := wage_controls panel.

(** The third specification on the second table: single men as the base
    group. *)
Definition panel_design : design rat :=
  base_single_men panel_lwage panel_f panel_m panel_ctl.

(** Its least-squares coefficients, in the order of the regressors. *)
Definition panel_coefs : seq rat :=
  [:: 2%:Q; 3%:Q; 1%:Q; - (1%:Q / 2%:Q); 1%:Q; 0%:Q; 2%:Q; - 1%:Q; 4%:Q].

(** Its residuals, row by row: the fit does not interpolate. *)
Definition panel_resid : seq rat :=
  [:: - 1%:Q; 1%:Q; - 1%:Q; 1%:Q; - 1%:Q; 1%:Q; - (1%:Q / 2%:Q); 1%:Q / 2%:Q;
      0%:Q; 0%:Q; 0%:Q; 0%:Q; 0%:Q].

(** The inner product of two columns as a sum over their cells. *)
Lemma dot_col_vec n (s t : seq rat) :
  size s = n -> size t = n ->
  dot (col_vec n s) (col_vec n t) = \sum_(p <- zip s t) p.1 * p.2.
Proof.
move=> ss st; rewrite /dot [RHS](big_nth (0, 0)) size_zip ss st minnn big_mkord.
by apply: eq_bigr => i _; rewrite !mxE nth_zip ?ss ?st.
Qed.

(** The residuals of [panel_coefs] are [panel_resid]. *)
Lemma panel_residuals :
  col_vec 13 panel_lwage -
  model_matrix panel_design *m (vec_of panel_coefs : 'cV_(size (exog panel_design))) =
  col_vec 13 panel_resid.
Proof.
apply/matrixP=> i j; rewrite ord1 mxE [X in _ + X]mxE !col_vecE.
rewrite /model_matrix (design_mx_mul (cols := exog panel_design)).
rewrite (coefs_vec_of panel_coefs) /= !big_cons big_nil.
by case: i => [[|[|[|[|[|[|[|[|[|[|[|[|[|i]]]]]]]]]]]]] lt].
Qed.

(** They are orthogonal to each of the nine regressors. *)
Lemma panel_normal :
  normal_equations (model_matrix panel_design) (col_vec 13 panel_lwage)
    (vec_of panel_coefs : 'cV_(size (exog panel_design))).
Proof.
rewrite /normal_equations panel_residuals.
apply: design_mx_tr_mul => c cin; rewrite dot_col_vec //.
  have: all (fun x : regressor rat => size x.2 == 13%N) (exog panel_design) by [].
  by move/allP/(_ _ cin)/eqP.
move: cin; rewrite !inE.
do 8![case/orP=> [/eqP->|]; first by rewrite /= !big_cons big_nil].
by move/eqP->; rewrite /= !big_cons big_nil.
Qed.

(** So the closed form returns [panel_coefs]. *)
Lemma panel_estimate :
  estimate (@closed_form rat) panel_design = vec_of panel_coefs.
Proof.
have rk : full_col_rank (model_matrix panel_design) by exact: panel_rank.
rewrite /estimate.
apply: (least_squares_unique rk (@closed_form_is_ols rat _ _ _ _ rk)).
exact: (normal_least_squares panel_normal).
Qed.

(** The parameters of the third regression on the second table. *)
Example panel_third_fit :
  ols_fit (@closed_form rat) panel_design =
  [:: ("Intercept", 2%:Q); ("marrmale", 3%:Q); ("marrfem", 1%:Q);
      ("singfem", - (1%:Q / 2%:Q)); ("educ", 1%:Q); ("exper", 0%:Q);
      ("expersq", 2%:Q); ("tenure", - 1%:Q); ("tenursq", 4%:Q)]%string.
Proof. by rewrite /ols_fit panel_estimate (coefs_vec_of panel_coefs). Qed.

(** Its fitted values. *)
Definition panel_fitted : seq rat :=
  [:: 2%:Q; 2%:Q; 5%:Q; 5%:Q; 3%:Q; 3%:Q; 3%:Q / 2%:Q; 3%:Q / 2%:Q;
      3%:Q; 2%:Q; 4%:Q; 1%:Q; 6%:Q].

Lemma panel_predict :
  ols_predict (@closed_form rat) panel_design = panel_fitted.
Proof.
rewrite /ols_predict panel_estimate.
apply: (@eq_from_nth _ 0); rewrite size_coefs // => i lt.
rewrite (nth_coefs _ (Ordinal lt)) /model_matrix.
rewrite (design_mx_mul (cols := exog panel_design)).
rewrite (coefs_vec_of panel_coefs) /= !big_cons big_nil.
by case: i lt => [|[|[|[|[|[|[|[|[|[|[|[|[|i]]]]]]]]]]]]].
Qed.

(** The third regression on the second table: four residual degrees of
    freedom, and an R-squared and an F statistic that are numbers. *)
Example panel_summary :
  let r := Results "lwage ~ 1 + marrmale + marrfem + singfem + educ + exper + expersq + tenure + tenursq"
             1 panel_design (ols_fit (@closed_form rat) panel_design)
             (ols_predict (@closed_form rat) panel_design) in
  [/\ df_model r = 8%N /\ df_resid r = 4%N,
      ssr_of r = 13%:Q / 2%:Q /\ centered_tss r = 36%:Q,
      rsquared r = Some (59%:Q / 72%:Q) &
      fvalue r = Some (59%:Q / 26%:Q)].
Proof.
have rk : \rank (model_matrix panel_design) = 9%N by exact/eqP/panel_rank.
have ss : ssr_of (Results EmptyString 1 panel_design
                    (ols_fit (@closed_form rat) panel_design)
                    (ols_predict (@closed_form rat) panel_design)) =
          13%:Q / 2%:Q.
  by rewrite /ssr_of [fittedvalues _]/= panel_predict /= !big_cons big_nil.
have ts : centered_tss (Results EmptyString 1 panel_design
                    (ols_fit (@closed_form rat) panel_design)
                    (ols_predict (@closed_form rat) panel_design)) =
          36%:Q.
  have mn : mean panel_lwage = 3%:Q by rewrite /mean /= !big_cons big_nil.
  by rewrite /centered_tss /= mn !big_cons big_nil.
rewrite /= /rsquared /fvalue /df_model /df_resid.
rewrite [ssr_of _]ss [centered_tss _]ts [design_of _]/= rk.
by [].
Qed.

(** The coefficients of the five controls. *)
Definition panel_controls : seq rat := [:: 1%:Q; 0%:Q; 2%:Q; - 1%:Q; 4%:Q].

(** The estimate split into the four group coefficients and the rest. *)
Lemma panel_estimate4 :
  estimate (@closed_form rat) panel_design =
  vec4 (2%:Q, 3%:Q, 1%:Q, - (1%:Q / 2%:Q)) (vec_of panel_controls).
Proof. by rewrite panel_estimate. Qed.

(** The same table with married women as the base group: the coefficients
    move as the change of base group says, [singfem] from [-1/2] to
    [-1/2 - 1]. *)
Example panel_fourth_fit :
  ols_fit (@closed_form rat)
    (base_married_women panel_lwage panel_f panel_m panel_ctl) =
  [:: ("Intercept", 3%:Q); ("marrmale", 2%:Q); ("singfem", - (3%:Q / 2%:Q));
      ("singmale", - 1%:Q); ("educ", 1%:Q); ("exper", 0%:Q);
      ("expersq", 2%:Q); ("tenure", - 1%:Q); ("tenursq", 4%:Q)]%string.
Proof.
have [lf lm] := panel_levels.
rewrite (married_women_params (@closed_form_is_ols rat)
           (erefl : size panel_f = size panel_lwage)
           (erefl : size panel_m = size panel_lwage) lf lm panel_rank).
rewrite -/panel_design panel_estimate4 lead4_vec4 tail4_vec4.
rewrite (coefs_vec_of panel_controls) /=.
by congr [:: (_, _), (_, _), (_, _), (_, _) & _]; apply/eqP.
Qed.

(** With the interaction: the married men's premium [3], the single
    women's [-1/2], and the interaction [1 - 3 - (-1/2)]. *)
Example panel_fifth_fit :
  ols_fit (@closed_form rat)
    (interacted panel_lwage panel_f panel_m panel_ctl) =
  [:: ("Intercept", 2%:Q); ("C(female)[T.1]", - (1%:Q / 2%:Q));
      ("C(married)[T.1]", 3%:Q);
      ("C(female)[T.1]:C(married)[T.1]", - (3%:Q / 2%:Q));
      ("educ", 1%:Q); ("exper", 0%:Q);
      ("expersq", 2%:Q); ("tenure", - 1%:Q); ("tenursq", 4%:Q)]%string.
Proof.
have [lf lm] := panel_levels.
rewrite (interacted_params (@closed_form_is_ols rat)
           (erefl : size panel_f = size panel_lwage)
           (erefl : size panel_m = size panel_lwage) lf lm panel_rank).
rewrite -/panel_design panel_estimate4 lead4_vec4 tail4_vec4.
rewrite (coefs_vec_of panel_controls) /=.
by congr [:: (_, _), (_, _), (_, _), (_, _) & _]; apply/eqP.
Qed.

End PanelFit.
